(** * Hybrid key-value store: DynamoDB table fronted by an S3 overflow bucket

    A shallow embedding of the storage core of the repository:
    - [s3FileDB] (storage/database/s3filedb.go): [write], [read];
    - [dynamoDB] (the database part carried by networks/rpc/stdio.go):
      [Put], [Get], [Has], the batch-write worker, and the
      [dynamoBatch] accumulator with [Put], [Write], [Reset].

    The cloud services are modelled by an explicit [World]: the table rows,
    the bucket objects, and the faults the services answer with. *)

From Stdlib Require Import ZArith Lia.
From Stdlib Require Strings.Byte.
From stdpp Require Import base option list gmap strings.

Local Open Scope Z_scope.

(** ** Go values *)

Abbreviation byte := Byte.byte.

#[global] Instance byte_eq_dec : EqDecision byte := Byte.byte_eq_dec.

#[global] Instance byte_countable : Countable byte.
Proof.
  refine (inj_countable' Byte.to_N (fun n => default Byte.x00 (Byte.of_N n)) _).
  intros b. by rewrite Byte.of_to_N.
Defined.

(** A Go [[]byte]: [None] is the nil slice, [Some l] a non-nil slice. *)
Definition Bytes : Type := option (list byte).

Definition content (b : Bytes) : list byte := default [] b.

(** Go's [len] on a byte slice. *)
Definition len (b : Bytes) : Z := Z.of_nat (length (content b)).

(** [bytes.Equal]: nil and empty are equal. *)
Definition bytes_Equal (a b : Bytes) : bool := bool_decide (content a = content b).

(** [append(s, chunk...)]: appending nothing to nil leaves nil. *)
Definition append_bytes (s : Bytes) (chunk : list byte) : Bytes :=
  match s, chunk with
  | None, [] => None
  | _, _ => Some (content s ++ chunk)
  end.

(** A Go [error] value is represented by its message; [option error] is an
    [error] interface that may be nil. *)
Definition error : Type := string.

(** [strings.Contains]. *)
Definition strings_Contains (s substr : string) : bool :=
  bool_decide (is_Some (String.index 0 substr s)).

(** ** Constants of the database package *)

Definition dataNotFoundErr : error := "data is not found with the given key".

Definition dynamoWriteSizeLimit : Z := 400 * 1024.
Definition dynamoBatchSize : Z := 25.
Definition dynamoMaxRetry : Z := 5.
Definition WorkerNum : Z := 10.
Definition itemChanSize : Z := WorkerNum * 2.

Definition overSizedDataPrefix : Bytes :=
  Some (String.list_byte_of_string "oversizeditem").

(** ** The DynamoDB attribute codec

    [dynamodbattribute.MarshalMap] and [UnmarshalMap] on the struct
    [DynamoData]: a byte slice of length zero is encoded as the NULL
    attribute, NULL and a missing attribute decode to the nil slice, and an
    attribute of another kind does not decode into a byte slice. *)

Inductive AttributeValue : Type :=
  | AttrB (b : list byte)
  | AttrNULL
  | AttrBOOL (b : bool).

#[global] Instance AttributeValue_eq_dec : EqDecision AttributeValue.
Proof. solve_decision. Defined.

(** [map[string]*dynamodb.AttributeValue] *)
Abbreviation Item := (gmap string AttributeValue).

Record DynamoData : Type := mkDynamoData { Key : Bytes; Val : Bytes }.

Definition encodeBytes (b : Bytes) : AttributeValue :=
  if len b =? 0 then AttrNULL else AttrB (content b).

Definition MarshalMap (data : DynamoData) : Item * option error :=
  (<["Key" := encodeBytes (Key data)]> (<["Val" := encodeBytes (Val data)]> ∅), None).

Definition decodeBytes (a : option AttributeValue) : Bytes * option error :=
  match a with
  | None | Some AttrNULL => (None, None)
  | Some (AttrB b) => (Some b, None)
  | Some (AttrBOOL _) =>
      (None, Some "dynamodbattribute: cannot unmarshal bool into Go value of type []uint8")
  end.

Definition UnmarshalMap (it : Item) : DynamoData * option error :=
  match decodeBytes (it !! "Key"), decodeBytes (it !! "Val") with
  | (k, None), (v, None) => (mkDynamoData k v, None)
  | (k, Some e), _ => (mkDynamoData k None, Some e)
  | (k, None), (_, Some e) => (mkDynamoData k None, Some e)
  end.

(** ** The services *)

(** One call of [Body.Read]: how many bytes the stream is willing to deliver
    at most, and the error it reports alongside. *)
Record ReadStep : Type := mkReadStep { rs_cap : nat; rs_err : option error }.

Record World : Type := mkWorld {
  table : gmap (list byte) Item;       (* rows by partition key *)
  bucket : gmap string (list byte);    (* objects by name *)
  ddb_put_fault : option error;        (* answer of a failing PutItem *)
  ddb_get_fault : option error;        (* answer of a failing GetItem *)
  s3_put_fault : option error;         (* answer of a failing PutObject *)
  s3_get_fault : option error;         (* answer of a failing GetObject *)
  s3_read_script : list ReadStep       (* how object bodies are streamed *)
}.

Definition set_table (w : World) (t : gmap (list byte) Item) : World :=
  mkWorld t (bucket w) (ddb_put_fault w) (ddb_get_fault w)
          (s3_put_fault w) (s3_get_fault w) (s3_read_script w).

Definition set_bucket (w : World) (b : gmap string (list byte)) : World :=
  mkWorld (table w) b (ddb_put_fault w) (ddb_get_fault w)
          (s3_put_fault w) (s3_get_fault w) (s3_read_script w).

(** [dynamodb.PutItem]: the row replaces the one under the same partition
    key; an item without a binary [Key] attribute is rejected. *)
Definition PutItem (w : World) (it : Item) : World * option error :=
  match ddb_put_fault w with
  | Some e => (w, Some e)
  | None =>
      match it !! "Key" with
      | Some (AttrB k) => (set_table w (<[k := it]> (table w)), None)
      | _ => (w, Some "ValidationException: missing the key Key in the item")
      end
  end.

(** [dynamodb.GetItem] with [ConsistentRead]: [result.Item] is nil ([None])
    when there is no row. *)
Definition GetItem (w : World) (key : Bytes) : option Item * option error :=
  match ddb_get_fault w with
  | Some e => (None, Some e)
  | None => (table w !! content key, None)
  end.

(** [s3.PutObject] *)
Definition PutObject (w : World) (name : string) (body : list byte) : World * option error :=
  match s3_put_fault w with
  | Some e => (w, Some e)
  | None => (set_bucket w (<[name := body]> (bucket w)), None)
  end.

(** The body of a [GetObjectOutput]: the bytes not delivered yet and the
    behaviour of the coming [Read] calls. *)
Record ReadCloser : Type := mkReadCloser { rc_data : list byte; rc_steps : list ReadStep }.

Record GetObjectOutput : Type := mkGetObjectOutput { ContentLength : Z; Body : ReadCloser }.

(** [s3.GetObject] *)
Definition GetObject (w : World) (name : string) : GetObjectOutput + error :=
  match s3_get_fault w with
  | Some e => inr e
  | None =>
      match bucket w !! name with
      | None => inr "NoSuchKey: The specified key does not exist."
      | Some body =>
          inl (mkGetObjectOutput (Z.of_nat (length body))
                                 (mkReadCloser body (s3_read_script w)))
      end
  end.

(** [io.Reader.Read] on a buffer of length [buflen]: at most [buflen] bytes
    are delivered.  Past the scripted steps the stream delivers all that
    fits and reports EOF once it is drained. *)
Definition Body_Read (r : ReadCloser) (buflen : Z) : ReadCloser * (list byte * option error) :=
  match rc_steps r with
  | st :: steps =>
      let n := Nat.min (Z.to_nat buflen) (rs_cap st) in
      (mkReadCloser (drop n (rc_data r)) steps, (take n (rc_data r), rs_err st))
  | [] =>
      let n := Z.to_nat buflen in
      let rest := drop n (rc_data r) in
      (mkReadCloser rest [],
       (take n (rc_data r), if bool_decide (rest = []) then Some "EOF" else None))
  end.

(** ** s3FileDB *)

(** Modelled from the spec: [hexutil.Encode] (common/hexutil) is not among the
    sources; the object name is the lowercase hex of the key. *)
Definition hexdigit (n : N) : Ascii.ascii :=
  Ascii.ascii_of_N (if (n <? 10)%N then 48 + n else 87 + n)%N.

Fixpoint hexutil_Encode (b : list byte) : string :=
  match b with
  | [] => EmptyString
  | x :: b' =>
      String (hexdigit (Byte.to_N x / 16)) (String (hexdigit (Byte.to_N x mod 16)) (hexutil_Encode b'))
  end.

Record item : Type := mkItem { item_key : Bytes; item_val : Bytes }.

(** [s3FileDB.write] *)
Definition s3FileDB_write (w : World) (it : item) : World * (string * option error) :=
  let name := hexutil_Encode (content (item_key it)) in
  match PutObject w name (content (item_val it)) with
  | (w', Some err) =>
      (w', ("", Some ("failed to write item to S3. key: "
                        +:+ String.string_of_list_byte (content (item_key it))
                        +:+ ", err: " +:+ err)))
  | (w', None) => (w', (name, None))
  end.

(** The loop of [s3FileDB.read].  [buflen] is the length of [buf]; [None]
    is a loop that has not come to an end within [fuel] iterations. *)
Fixpoint read_loop (fuel : nat) (body : ReadCloser) (bodySize totalReadSize buflen : Z)
    (returnVal : Bytes) : option (Bytes * option error) :=
  match fuel with
  | O => None
  | S fuel' =>
      if totalReadSize <? bodySize then
        let '(body', (chunk, err)) := Body_Read body buflen in
        let currReadSize := Z.of_nat (length chunk) in
        match err with
        | Some e =>
            if negb (strings_Contains e "EOF") then Some (None, Some e)
            else read_loop fuel' body' bodySize (totalReadSize + currReadSize) 0
                           (append_bytes returnVal chunk)
        | None =>
            read_loop fuel' body' bodySize (totalReadSize + currReadSize) 0
                      (append_bytes returnVal chunk)
        end
      else Some (returnVal, None)
  end.

(** [s3FileDB.read] *)
Definition s3FileDB_read (fuel : nat) (w : World) (key : Bytes) : option (Bytes * option error) :=
  match GetObject w (hexutil_Encode (content key)) with
  | inr err => Some (None, Some err)
  | inl output =>
      let bodySize := ContentLength output in
      read_loop fuel (Body output) bodySize 0 bodySize None
  end.

(** ** dynamoDB *)

(** [dynamoDB.Put].  The oversize branch calls [Put] again, hence the fuel:
    [None] is a call that has not returned within [fuel] nested calls. *)
Fixpoint dynamoDB_Put (fuel : nat) (w : World) (key val : Bytes) : option (World * option error) :=
  match fuel with
  | O => None
  | S fuel' =>
      if len key =? 0 then Some (w, None)
      else if len key + len val >? dynamoWriteSizeLimit then
        match s3FileDB_write w (mkItem key val) with
        | (w1, (_, Some err)) => Some (w1, Some err)
        | (w1, (_, None)) => dynamoDB_Put fuel' w1 key overSizedDataPrefix
        end
      else
        let data := mkDynamoData key val in
        match MarshalMap data with
        | (_, Some err) => Some (w, Some err)
        | (marshaledData, None) =>
            match PutItem w marshaledData with
            | (w1, Some err) => Some (w1, Some err)
            | (w1, None) => Some (w1, None)
            end
        end
  end.

(** [dynamoDB.Get] *)
Definition dynamoDB_Get (fuel : nat) (w : World) (key : Bytes) : option (Bytes * option error) :=
  match GetItem w key with
  | (_, Some err) => Some (None, Some err)
  | (None, None) => Some (None, Some dataNotFoundErr)
  | (Some it, None) =>
      match UnmarshalMap it with
      | (_, Some err) => Some (None, Some err)
      | (data, None) =>
          match Val data with
          | None => Some (Some [], None)
          | Some _ =>
              if bytes_Equal (Val data) overSizedDataPrefix then s3FileDB_read fuel w key
              else Some (Val data, None)
          end
      end
  end.

(** [dynamoDB.Has] *)
Definition dynamoDB_Has (fuel : nat) (w : World) (key : Bytes) : option (bool * option error) :=
  match dynamoDB_Get fuel w key with
  | None => None
  | Some (_, Some err) => Some (false, Some err)
  | Some (_, None) => Some (true, None)
  end.

(** ** The batch-write worker *)

(** [&dynamodb.WriteRequest{PutRequest: &dynamodb.PutRequest{Item: ...}}] *)
Record WriteRequest : Type := mkWriteRequest { PutRequest : Item }.

(** [map[string][]*dynamodb.WriteRequest], used for [RequestItems] and for
    [UnprocessedItems]. *)
Abbreviation RequestMap := (gmap string (list WriteRequest)).

Record BatchWriteItemOutput : Type := mkBatchWriteItemOutput { UnprocessedItems : RequestMap }.

(** What one [BatchWriteItem] call answers: the output pointer, nil when
    [None], and the error. *)
Definition response : Type := option BatchWriteItemOutput * option error.

Inductive wevent : Type :=
  | EvBatchWriteItem (req : RequestMap) (resp : response)  (* a call and its answer *)
  | EvWarn (failCount : Z)                                  (* the log line after failCount++ *)
  | EvSleep                                                 (* time.Sleep(time.Second) *)
  | EvDone.                                                 (* batchInput.wg.Done() *)

Inductive outcome : Type :=
  | Completed (failCount : Z) (tr : list wevent)  (* back at the select *)
  | Panicked (tr : list wevent)                   (* nil pointer dereference *)
  | Retrying (failCount : Z) (tr : list wevent).  (* the answers known so far are used up *)

Definition after (evs : list wevent) (o : outcome) : outcome :=
  match o with
  | Completed fc tr => Completed fc (evs ++ tr)
  | Panicked tr => Panicked (evs ++ tr)
  | Retrying fc tr => Retrying fc (evs ++ tr)
  end.

(** The [for err != nil || numUnprocessed != 0] loop and the two statements
    behind it.  [script] holds the answers of the coming calls. *)
Fixpoint worker_loop (script : list response) (tableName : string) (failCount : Z)
    (RequestItems : RequestMap) (out : BatchWriteItemOutput) (err : option error) : outcome :=
  let numUnprocessed := Z.of_nat (size (UnprocessedItems out)) in
  if bool_decide (err ≠ None) || negb (numUnprocessed =? 0) then
    let failCount1 := if bool_decide (err ≠ None) then failCount + 1 else failCount in
    let logs :=
      if bool_decide (err ≠ None)
      then EvWarn failCount1 :: (if failCount1 >? dynamoMaxRetry then [EvSleep] else [])
      else [] in
    let RequestItems1 :=
      if negb (numUnprocessed =? 0)
      then <[tableName := default [] (UnprocessedItems out !! tableName)]> RequestItems
      else RequestItems in
    match script with
    | [] => Retrying failCount1 logs
    | (None, err1) :: _ =>
        Panicked (logs ++ [EvBatchWriteItem RequestItems1 (None, err1)])
    | (Some out1, err1) :: script1 =>
        after (logs ++ [EvBatchWriteItem RequestItems1 (Some out1, err1)])
              (worker_loop script1 tableName failCount1 RequestItems1 out1 err1)
    end
  else Completed 0 [EvDone].

(** The [case batchInput := <-dynamo.writeCh] arm of
    [dynamoDB.createBatchWriteWorker], for one request. *)
Definition worker_handle (script : list response) (tableName : string) (failCount : Z)
    (RequestItems : RequestMap) (items : list WriteRequest) : outcome :=
  let RequestItems1 := <[tableName := items]> RequestItems in
  match script with
  | [] => Retrying failCount []
  | (None, err) :: _ => Panicked [EvBatchWriteItem RequestItems1 (None, err)]
  | (Some out, err) :: script1 =>
      after [EvBatchWriteItem RequestItems1 (Some out, err)]
            (worker_loop script1 tableName failCount RequestItems1 out err)
  end.

Definition trace_of (o : outcome) : list wevent :=
  match o with Completed _ tr | Panicked tr | Retrying _ tr => tr end.

Definition calls_of (tr : list wevent) : list (RequestMap * response) :=
  omap (fun e => match e with EvBatchWriteItem req resp => Some (req, resp) | _ => None end) tr.

Definition warns_of (tr : list wevent) : list Z :=
  omap (fun e => match e with EvWarn n => Some n | _ => None end) tr.

Definition is_done (e : wevent) : bool :=
  match e with EvDone => true | _ => false end.

Definition dones_of (tr : list wevent) : nat := length (filter (fun e => is_done e = true) tr).

(** An answer that ends the retry loop. *)
Definition full_success (resp : response) : Prop :=
  exists out, resp = (Some out, None) /\ size (UnprocessedItems out) = 0%nat.

(** What the worker sends after the answer [resp] to the request [req]. *)
Definition resubmission (tableName : string) (req : RequestMap) (resp : response) : RequestMap :=
  match resp with
  | (Some out, _) =>
      if bool_decide (size (UnprocessedItems out) = 0%nat) then req
      else <[tableName := default [] (UnprocessedItems out !! tableName)]> req
  | (None, _) => req
  end.

(** ** dynamoBatch *)

(** What a batch operation does to the shared completion group and to the
    write channel, in program order. *)
Inductive action : Type :=
  | WgAdd                             (* batch.wg.Add(1) *)
  | GoUpload (it : item)              (* go func() { fdb.write until it succeeds; batch.wg.Done() }() *)
  | Send (items : list WriteRequest)  (* batch.db.writeCh <- &batchWriteWorkerInput{items, batch.wg};
                                         the items the slice holds when it is sent *)
  | WgWait.                           (* batch.wg.Wait() *)

(** The fields of [dynamoBatch] that change; [db], [tableName] and [wg] are
    fixed at [NewBatch]. *)
Record dynamoBatch : Type := mkBatch { batchItems : list WriteRequest; size : Z }.

(** [dynamoDB.NewBatch] *)
Definition dynamoDB_NewBatch : dynamoBatch := mkBatch [] 0.

(** [dynamoBatch.Reset] *)
Definition dynamoBatch_Reset (batch : dynamoBatch) : dynamoBatch :=
  mkBatch (take 0 (batchItems batch)) 0.

(** [dynamoBatch.ValueSize] *)
Definition dynamoBatch_ValueSize (batch : dynamoBatch) : Z := size batch.

(** [dynamoBatch.Put] *)
Definition dynamoBatch_Put (batch : dynamoBatch) (key val : Bytes)
  : dynamoBatch * list action * option error :=
  let data := mkDynamoData key val in
  let dataSize := len val in
  if dataSize =? 0 then (batch, [], None)
  else
    let '(data, dataSize, spawned) :=
      if len key + dataSize >? dynamoWriteSizeLimit
      then (mkDynamoData key overSizedDataPrefix, len overSizedDataPrefix,
            [WgAdd; GoUpload (mkItem key val)])
      else (data, dataSize, []) in
    match MarshalMap data with
    | (_, Some err) => (batch, spawned, Some err)
    | (marshaledData, None) =>
        let batch1 := mkBatch (batchItems batch ++ [mkWriteRequest marshaledData])
                              (size batch + dataSize) in
        if Z.of_nat (length (batchItems batch1)) =? dynamoBatchSize
        then (dynamoBatch_Reset batch1, spawned ++ [WgAdd; Send (batchItems batch1)], None)
        else (batch1, spawned, None)
    end.

(** The goroutine spawned by [dynamoBatch.Put] for an oversize value: it
    writes the blob until a write succeeds, then signals the group.  The
    result is the world and the number of failed attempts. *)
Fixpoint upload_task (fuel : nat) (w : World) (it : item) (failCnt : Z) : option (World * Z) :=
  match fuel with
  | O => None
  | S fuel' =>
      match s3FileDB_write w it with
      | (w1, (_, Some _)) => upload_task fuel' w1 it (failCnt + 1)
      | (w1, (_, None)) => Some (w1, failCnt)
      end
  end.

(** The [for numRemainedItems > 0] loop of [dynamoBatch.Write]: the final
    [batch.batchItems] and the actions taken. *)
Fixpoint Write_loop (fuel : nat) (batchItems : list WriteRequest) (numRemainedItems : Z)
  : option (list WriteRequest * list action) :=
  match fuel with
  | O => None
  | S fuel' =>
      if numRemainedItems >? 0 then
        let '(writeRequest, batchItems1) :=
          if numRemainedItems >? dynamoBatchSize
          then (take (Z.to_nat dynamoBatchSize) batchItems,
                drop (Z.to_nat dynamoBatchSize) batchItems)
          else (batchItems, batchItems) in
        match Write_loop fuel' batchItems1 (numRemainedItems - Z.of_nat (length writeRequest)) with
        | None => None
        | Some (final, acts) => Some (final, WgAdd :: Send batchItems1 :: acts)
        end
      else Some (batchItems, [])
  end.

(** [dynamoBatch.Write] *)
Definition dynamoBatch_Write (fuel : nat) (batch : dynamoBatch)
  : option (dynamoBatch * list action * option error) :=
  if size batch =? 0 then Some (batch, [], None)
  else
    match Write_loop fuel (batchItems batch) (Z.of_nat (length (batchItems batch))) with
    | None => None
    | Some (final, acts) => Some (mkBatch final (size batch), acts ++ [WgWait], None)
    end.

(** A sequence of [Put] calls on one batch, stopping at the first error. *)
Fixpoint put_all (batch : dynamoBatch) (kvs : list (Bytes * Bytes))
  : dynamoBatch * list action * option error :=
  match kvs with
  | [] => (batch, [], None)
  | (key, val) :: kvs' =>
      match dynamoBatch_Put batch key val with
      | (batch1, acts, Some err) => (batch1, acts, Some err)
      | (batch1, acts, None) =>
          let '(batch2, acts', err) := put_all batch1 kvs' in (batch2, acts ++ acts', err)
      end
  end.

Definition sends_of (acts : list action) : list (list WriteRequest) :=
  omap (fun a => match a with Send items => Some items | _ => None end) acts.

Definition non_empty_count (kvs : list (Bytes * Bytes)) : Z :=
  Z.of_nat (length (filter (fun kv => len kv.2 ≠ 0) kvs)).

(** ** The completion group

    A run interleaves the actions of the batch, in program order, with the
    [Done] signals of workers and upload goroutines.  [wg_run] follows the
    counter of the [sync.WaitGroup]: [None] when the run cannot happen,
    because [Wait] returned while the counter was positive or the counter
    went below zero. *)
Inductive step : Type :=
  | Act (a : action)
  | Done.

Definition acts_of (run : list step) : list action :=
  omap (fun s => match s with Act a => Some a | Done => None end) run.

Fixpoint wg_run (counter : Z) (run : list step) : option Z :=
  match run with
  | [] => Some counter
  | Act WgAdd :: run' => wg_run (counter + 1) run'
  | Act WgWait :: run' => if counter =? 0 then wg_run counter run' else None
  | Act _ :: run' => wg_run counter run'
  | Done :: run' => if counter <=? 0 then None else wg_run (counter - 1) run'
  end.

(** ** Statements under test

    The sentences of the specification that the code does not meet, as they
    are written, and the inputs they are tried on. *)

(** All four services answer. *)
Definition healthy (w : World) : Prop :=
  ddb_put_fault w = None /\ ddb_get_fault w = None /\
  s3_put_fault w = None /\ s3_get_fault w = None.

(** Round trip of a value that fits a row: [Put] succeeds and [Get] gives the
    value back. *)
Definition small_round_trip (w : World) (k v : Bytes) : Prop :=
  healthy w -> len k ≠ 0 -> len k + len v <= dynamoWriteSizeLimit ->
  exists w', (forall fuel, dynamoDB_Put (S fuel) w k v = Some (w', None)) /\
    exists fuel r, dynamoDB_Get fuel w' k = Some (r, None) /\ content r = content v.

(** The row that stands for an oversize value. *)
Definition sentinel_row (k : Bytes) : Item :=
  (MarshalMap (mkDynamoData k overSizedDataPrefix)).1.

(** An oversize [Put]: the blob is written, then the sentinel row; a failing
    blob write is returned and leaves the table as it was. *)
Definition oversize_put (w : World) (k v : Bytes) : Prop :=
  len k + len v > dynamoWriteSizeLimit ->
  (forall e, s3_put_fault w = Some e ->
     exists fuel w' e', dynamoDB_Put fuel w k v = Some (w', Some e') /\ table w' = table w) /\
  (s3_put_fault w = None -> ddb_put_fault w = None ->
     exists fuel w1 w',
       s3FileDB_write w (mkItem k v) = (w1, (hexutil_Encode (content k), None)) /\
       table w1 = table w /\
       bucket w1 !! hexutil_Encode (content k) = Some (content v) /\
       dynamoDB_Put fuel w k v = Some (w', None) /\
       bucket w' = bucket w1 /\
       table w' !! content k = Some (sentinel_row k)).

(** [Has] as the specification words it: true on success, false without an
    error on [dataNotFoundErr], any other error handed on. *)
Definition has_maps_not_found (fuel : nat) (w : World) (k : Bytes) : Prop :=
  (dynamoDB_Has fuel w k = Some (true, None) <->
     exists r, dynamoDB_Get fuel w k = Some (r, None)) /\
  (forall r, dynamoDB_Get fuel w k = Some (r, Some dataNotFoundErr) ->
     dynamoDB_Has fuel w k = Some (false, None)) /\
  (forall r e, dynamoDB_Get fuel w k = Some (r, Some e) -> e ≠ dataNotFoundErr ->
     dynamoDB_Has fuel w k = Some (false, Some e)).

(** Sample inputs. *)
Definition bytes_of (s : string) : Bytes := Some (String.list_byte_of_string s).

Definition empty_world : World := mkWorld ∅ ∅ None None None None [].

Definition big_value : Bytes := Some (replicate (Z.to_nat 500000) Byte.x41).

(** ** Notions used in the statements *)

(** Worlds for the four cases of [Get]. *)
Definition world_with_row (k : Bytes) (it : Item) : World :=
  mkWorld {[ content k := it ]} ∅ None None None None [].

(** A scripted read that does not abort the loop: no error, or one whose
    message contains EOF. *)
Definition benign (st : ReadStep) : Prop :=
  match rs_err st with
  | None => True
  | Some e => strings_Contains e "EOF" = true
  end.

Definition short_read_world : World :=
  mkWorld ∅ {[ hexutil_Encode (content (bytes_of "k")) := String.list_byte_of_string "ab" ]}
          None None None None [mkReadStep 1 None].

(** The state of the retry loop after an answer. *)
Definition failCount_after (failCount : Z) (err : option error) : Z :=
  if bool_decide (err ≠ None) then failCount + 1 else failCount.

Definition logs_after (failCount : Z) (err : option error) : list wevent :=
  if bool_decide (err ≠ None)
  then EvWarn (failCount + 1) :: (if failCount + 1 >? dynamoMaxRetry then [EvSleep] else [])
  else [].

(** A call with its answer, followed by what the worker does next. *)
Definition called (script : list response) (tableName : string) (failCount : Z)
    (req : RequestMap) (out : BatchWriteItemOutput) (err : option error) : outcome :=
  after [EvBatchWriteItem req (Some out, err)]
        (worker_loop script tableName failCount req out err).

(** Consecutive calls: each request is the resubmission of the one before. *)
Fixpoint chained (tableName : string) (cs : list (RequestMap * response)) : Prop :=
  match cs with
  | c :: (c' :: _) as rest => c'.1 = resubmission tableName c.1 c.2 /\ chained tableName rest
  | _ => True
  end.

Definition is_Completed (o : outcome) : Prop :=
  match o with Completed _ _ => True | _ => False end.

Definition is_Panicked (o : outcome) : Prop :=
  match o with Panicked _ => True | _ => False end.

(** What holds of every run of the worker on one request, started with the
    failure counter at [failCount]. *)
Definition well_run (tableName : string) (failCount : Z) (o : outcome) : Prop :=
  chained tableName (calls_of (trace_of o)) /\
  warns_of (trace_of o)
    = (fun i => failCount + Z.of_nat i) <$> seq 1 (length (warns_of (trace_of o))) /\
  match o with
  | Completed fc tr =>
      fc = 0 /\
      exists tr' req resp,
        tr = tr' ++ [EvBatchWriteItem req resp; EvDone] /\ full_success resp /\
        dones_of tr' = 0%nat /\ Forall (fun c => ~ full_success c.2) (calls_of tr')
  | Panicked tr =>
      dones_of tr = 0%nat /\ Forall (fun c => ~ full_success c.2) (calls_of tr) /\
      exists tr' req err, tr = tr' ++ [EvBatchWriteItem req (None, err)]
  | Retrying fc tr =>
      dones_of tr = 0%nat /\ Forall (fun c => ~ full_success c.2) (calls_of tr) /\
      fc = failCount + Z.of_nat (length (warns_of tr))
  end.

(** The answers a worker consumes before a nil output: each has an output
    and falls short of full success. *)
Definition retried (r : response) : Prop := is_Some r.1 /\ ~ full_success r.

(** What [Put] stores for a pair, what it spawns, and the row it queues. *)
Definition stored_val (key val : Bytes) : Bytes :=
  if len key + len val >? dynamoWriteSizeLimit then overSizedDataPrefix else val.

Definition put_request (key val : Bytes) : WriteRequest :=
  mkWriteRequest (MarshalMap (mkDynamoData key (stored_val key val))).1.

Definition put_spawned (key val : Bytes) : list action :=
  if len key + len val >? dynamoWriteSizeLimit then [WgAdd; GoUpload (mkItem key val)] else [].

Definition pending (batch : dynamoBatch) : Z := Z.of_nat (length (batchItems batch)).

(** The states a batch goes through: fewer than [dynamoBatchSize] items are
    pending, and the size counter is zero exactly when none is. *)
Definition batch_inv (batch : dynamoBatch) : Prop :=
  pending batch < dynamoBatchSize /\ 0 <= size batch /\
  (size batch = 0 <-> batchItems batch = []).

(** Inputs for the batch: pairs with distinct one-byte keys, and the
    requests [Put] queues for them. *)
Definition numbered_key (n : nat) : Bytes := Some [default Byte.x00 (Byte.of_nat n)].

Definition numbered_puts (n : nat) : list (Bytes * Bytes) :=
  (fun i => (numbered_key i, bytes_of "v")) <$> seq 0 n.

Definition numbered_request (n : nat) : WriteRequest :=
  put_request (numbered_key n) (bytes_of "v").

Definition twenty_six : list WriteRequest := numbered_request <$> seq 0 26.

(** The operations on a batch, and the batches they lead to from
    [NewBatch]. *)
Inductive batch_op : Type :=
  | OpPut (key val : Bytes)
  | OpWrite
  | OpReset.

(** [Write] is run with fuel for its whole loop. *)
Definition apply_op (batch : dynamoBatch) (op : batch_op) : dynamoBatch :=
  match op with
  | OpPut key val => (dynamoBatch_Put batch key val).1.1
  | OpWrite =>
      match dynamoBatch_Write (S (length (batchItems batch))) batch with
      | Some r => r.1.1
      | None => batch
      end
  | OpReset => dynamoBatch_Reset batch
  end.

Definition batch_after (ops : list batch_op) : dynamoBatch :=
  fold_left apply_op ops dynamoDB_NewBatch.

(** ** Deleting

    The answer of a failing delete call is given with the call. *)

(** [dynamodb.DeleteItem]: the row of the key is removed; a key without a
    row is no error. *)
Definition DeleteItem (fault : option error) (w : World) (key : Bytes) : World * option error :=
  match fault with
  | Some e => (w, Some e)
  | None => (set_table w (delete (content key) (table w)), None)
  end.

(** [dynamoDB.Delete] *)
Definition dynamoDB_Delete (fault : option error) (w : World) (key : Bytes)
  : World * option error :=
  match DeleteItem fault w key with
  | (w1, Some err) => (w1, Some err)
  | (w1, None) => (w1, None)
  end.

(** [s3.DeleteObject]: an object that does not exist is no error. *)
Definition DeleteObject (fault : option error) (w : World) (name : string) : World * option error :=
  match fault with
  | Some e => (w, Some e)
  | None => (set_bucket w (delete name (bucket w)), None)
  end.

(** [s3FileDB.delete] *)
Definition s3FileDB_delete (fault : option error) (w : World) (key : Bytes)
  : World * option error :=
  DeleteObject fault w (hexutil_Encode (content key)).

(** ** Opening the stores *)

(** The buckets of the account, and the answers of failing calls. *)
Record S3Account : Type := mkS3Account {
  acc_buckets : list string;
  acc_list_fault : option error;
  acc_create_fault : option error
}.

(** [s3.ListBuckets] *)
Definition ListBuckets (a : S3Account) : list string * option error :=
  match acc_list_fault a with
  | Some e => ([], Some e)
  | None => (acc_buckets a, None)
  end.

(** [s3.CreateBucket]: refused when the account has a bucket of that name. *)
Definition CreateBucket (a : S3Account) (name : string) : S3Account * option error :=
  match acc_create_fault a with
  | Some e => (a, Some e)
  | None =>
      if bool_decide (name ∈ acc_buckets a)
      then (a, Some "BucketAlreadyOwnedByYou")
      else (mkS3Account (acc_buckets a ++ [name]) (acc_list_fault a) (acc_create_fault a), None)
  end.

(** The [for _, bucket := range output.Buckets] loop of [hasBucket], with
    its [break]. *)
Fixpoint hasBucket_loop (bucketName : string) (buckets : list string) : bool :=
  match buckets with
  | [] => false
  | bucket :: rest =>
      if String.eqb bucketName bucket then true else hasBucket_loop bucketName rest
  end.

(** [s3FileDB.hasBucket] *)
Definition s3FileDB_hasBucket (a : S3Account) (bucketName : string) : bool * option error :=
  match ListBuckets a with
  | (_, Some err) => (false, Some err)
  | (buckets, None) => (hasBucket_loop bucketName buckets, None)
  end.

(** The fields of [s3FileDB] that tell one store from another. *)
Record s3FileDB : Type := mk_s3FileDB { s3_region : string; s3_endpoint : string; s3_bucket : string }.

(** [newS3FileDB]; [session] is the error of [session.NewSession], if any. *)
Definition newS3FileDB (session : option error) (a : S3Account)
    (region endpoint bucketName : string) : S3Account * (option s3FileDB * option error) :=
  match session with
  | Some err => (a, (None, Some err))
  | None =>
      let s3DB := mk_s3FileDB region endpoint bucketName in
      match s3FileDB_hasBucket a bucketName with
      | (_, Some err) => (a, (None, Some err))
      | (exist', None) =>
          if negb exist' then
            match CreateBucket a bucketName with
            | (a1, Some err) => (a1, (None, Some err))
            | (a1, None) => (a1, (Some s3DB, None))
            end
          else (a, (Some s3DB, None))
      end
  end.

Definition nilDynamoConfigErr : error := "attempt to create DynamoDB with nil configuration".

Record DynamoDBConfig : Type := mkDynamoDBConfig {
  Region : string;
  Endpoint : string;
  TableName : string;
  ReadCapacityUnits : Z;
  WriteCapacityUnits : Z
}.

(** [dynamoDB.Path] *)
Definition dynamoDB_Path (config : DynamoDBConfig) : string :=
  Region config +:+ "-" +:+ Endpoint config.

(** What [DescribeTable] answers: the output, its [Table] and the table's
    [TableStatus] are pointers, nil when [None]. *)
Record TableDescription : Type := mkTableDescription { TableStatus : option string }.

Record DescribeTableOutput : Type := mkDescribeTableOutput { Table : option TableDescription }.

Definition described : Type := option DescribeTableOutput * option error.

(** [dynamoDB.tableDescription] *)
Definition dynamoDB_tableDescription (ans : described) : option TableDescription * option error :=
  match ans with
  | (None, err) => (None, err)
  | (Some describe, err) => (Table describe, err)
  end.

(** A Go result, or the panic of a nil dereference. *)
Inductive go_result (A : Type) : Type :=
  | Ret (a : A)
  | NilDeref.

Arguments Ret {A} a.
Arguments NilDeref {A}.

(** [dynamoDB.tableStatus] *)
Definition dynamoDB_tableStatus (ans : described) : go_result (string * option error) :=
  match dynamoDB_tableDescription ans with
  | (_, Some err) => Ret ("", Some err)
  | (None, None) => NilDeref
  | (Some desc, None) =>
      match TableStatus desc with
      | None => NilDeref
      | Some status => Ret (status, None)
      end
  end.

(** One round of the loop of [NewDynamoDB]: what the service answers to
    [DescribeTable], and to [CreateTable] if the round calls it. *)
Record round : Type := mkRound { round_described : described; round_created : option error }.

Inductive init_event : Type :=
  | IeCreateTable   (* dynamoDB.createTable() *)
  | IeSleep         (* time.Sleep(1 * time.Second) *)
  | IeSpawnWorker.  (* go dynamoDB.createBatchWriteWorker() *)

Inductive init_outcome : Type :=
  | Opened (evs : list init_event)                 (* return dynamoDB, nil *)
  | Refused (err : error) (evs : list init_event)  (* return nil, err *)
  | InitPanicked (evs : list init_event)
  | Polling (evs : list init_event).               (* the answers known so far are used up *)

Definition init_after (evs : list init_event) (o : init_outcome) : init_outcome :=
  match o with
  | Opened evs' => Opened (evs ++ evs')
  | Refused err evs' => Refused err (evs ++ evs')
  | InitPanicked evs' => InitPanicked (evs ++ evs')
  | Polling evs' => Polling (evs ++ evs')
  end.

(** [dynamoDB.createTable]: the error of [CreateTable], if any. *)
Definition dynamoDB_createTable (created : option error) : option error :=
  match created with
  | Some err => Some err
  | None => None
  end.

(** The [for] loop of [NewDynamoDB] that waits for the table. *)
Fixpoint NewDynamoDB_loop (rounds : list round) : init_outcome :=
  match rounds with
  | [] => Polling []
  | r :: rounds' =>
      match dynamoDB_tableStatus (round_described r) with
      | NilDeref => InitPanicked []
      | Ret (tableStatus, err) =>
          let switch (evs : list init_event) : init_outcome :=
            if bool_decide (tableStatus = "ACTIVE") then
              Opened (evs ++ replicate (Z.to_nat WorkerNum) IeSpawnWorker)
            else if bool_decide (tableStatus ∈ ["DELETING"; "ARCHIVING"; "ARCHIVED"]) then
              Refused ("failed to get DynamoDB table, table status : " +:+ tableStatus) evs
            else init_after (evs ++ [IeSleep]) (NewDynamoDB_loop rounds') in
          match err with
          | Some e =>
              if negb (strings_Contains e "ResourceNotFoundException") then Refused e []
              else
                match dynamoDB_createTable (round_created r) with
                | Some e' => Refused e' [IeCreateTable]
                | None => switch [IeCreateTable]
                end
          | None => switch []
          end
      end
  end.

(** [NewDynamoDB]: the account after it, and the outcome. *)
Definition NewDynamoDB (config : option DynamoDBConfig) (session : option error)
    (a : S3Account) (rounds : list round) : S3Account * init_outcome :=
  match config with
  | None => (a, Refused nilDynamoConfigErr [])
  | Some config =>
      match newS3FileDB session a (Region config) "https://s3.ap-northeast-2.amazonaws.com"
                        (TableName config +:+ "-bucket") with
      | (a1, (_, Some err)) => (a1, Refused err [])
      | (a1, (_, None)) => (a1, NewDynamoDB_loop rounds)
      end
  end.

Definition init_events (o : init_outcome) : list init_event :=
  match o with Opened evs | Refused _ evs | InitPanicked evs | Polling evs => evs end.

Definition is_spawn (e : init_event) : bool :=
  match e with IeSpawnWorker => true | _ => false end.

Definition is_sleep (e : init_event) : bool :=
  match e with IeSleep => true | _ => false end.

Definition is_create (e : init_event) : bool :=
  match e with IeCreateTable => true | _ => false end.

Definition count_events (p : init_event -> bool) (evs : list init_event) : nat :=
  length (filter (fun e => p e = true) evs).

(** A round after which the loop sleeps and polls again: the table is
    reported in a state that neither opens nor refuses, or it is reported
    missing and is created. *)
Definition waits (r : round) : Prop :=
  (exists status, dynamoDB_tableStatus (round_described r) = Ret (status, None) /\
                  status ∉ ["ACTIVE"; "DELETING"; "ARCHIVING"; "ARCHIVED"]) \/
  (exists e, dynamoDB_tableStatus (round_described r) = Ret ("", Some e) /\
             strings_Contains e "ResourceNotFoundException" = true /\
             round_created r = None).

(** A round that reports the table active. *)
Definition active (r : round) : Prop :=
  dynamoDB_tableStatus (round_described r) = Ret ("ACTIVE", None).

(** The answer of [DescribeTable] for a table in the given state. *)
Definition table_in (status : string) : described :=
  (Some (mkDescribeTableOutput (Some (mkTableDescription (Some status)))), None).

Definition table_missing : described :=
  (Some (mkDescribeTableOutput None),
   Some "ResourceNotFoundException: Requested resource not found").

(** What a waiting round does before the next poll. *)
Definition wait_events (r : round) : list init_event :=
  match dynamoDB_tableStatus (round_described r) with
  | Ret (_, Some _) => [IeCreateTable; IeSleep]
  | _ => [IeSleep]
  end.

(** ** More on the batch *)

(** The pairs a batch keeps: those with a non-empty value. *)
Definition non_empty_pairs (kvs : list (Bytes * Bytes)) : list (Bytes * Bytes) :=
  filter (fun kv => len kv.2 ≠ 0) kvs.

Definition pair_request (kv : Bytes * Bytes) : WriteRequest := put_request kv.1 kv.2.

(** The bytes [Put] counts for a pair. *)
Definition pair_size (kv : Bytes * Bytes) : Z := len (stored_val kv.1 kv.2).

Definition sizes_sum (kvs : list (Bytes * Bytes)) : Z := foldr (fun kv acc => pair_size kv + acc) 0 kvs.

(** ** The goroutines over time *)

(** The world with the bucket's answer to writes changed. *)
Definition with_s3_put_fault (w : World) (fault : option error) : World :=
  mkWorld (table w) (bucket w) (ddb_put_fault w) (ddb_get_fault w)
          fault (s3_get_fault w) (s3_read_script w).

Inductive upload_event : Type :=
  | UeWrite (err : option error)  (* batch.db.fdb.write(item{key, val}) and its error *)
  | UeSleep                       (* time.Sleep(time.Second) *)
  | UeDone.                       (* batch.wg.Done() *)

(** The [for err != nil] loop of the goroutine [dynamoBatch.Put] spawns, and
    the [Done] behind it.  [faults] holds the bucket's answers to the coming
    writes; the result is the world, [failCnt] and what was done, ending in
    [UeSleep] when the answers are used up first. *)
Fixpoint upload_loop (faults : list (option error)) (w : World) (it : item) (failCnt : Z)
    (err : option error) : World * Z * list upload_event :=
  match err with
  | None => (w, failCnt, [UeDone])
  | Some _ =>
      match faults with
      | [] => (w, failCnt + 1, [UeSleep])
      | fault :: faults' =>
          match s3FileDB_write (with_s3_put_fault w fault) it with
          | (w1, (_, err1)) =>
              let '(w2, n, evs) := upload_loop faults' w1 it (failCnt + 1) err1 in
              (w2, n, UeSleep :: UeWrite err1 :: evs)
          end
      end
  end.

(** The goroutine, from its first write on. *)
Definition upload_goroutine (faults : list (option error)) (w : World) (it : item)
  : World * Z * list upload_event :=
  match faults with
  | [] => (w, 0, [])
  | fault :: faults' =>
      match s3FileDB_write (with_s3_put_fault w fault) it with
      | (w1, (_, err)) =>
          let '(w2, n, evs) := upload_loop faults' w1 it 0 err in
          (w2, n, UeWrite err :: evs)
      end
  end.

(** What a worker's [select] picks: the quit signal, or a request with the
    answers its bulk writes will get. *)
Inductive selected : Type :=
  | SelQuit
  | SelWrite (items : list WriteRequest) (answers : list response).

Inductive worker_exit : Type :=
  | Exited                  (* return, on quitCh *)
  | Halted (o : outcome)    (* a request that panicked or is still retrying *)
  | Selecting.              (* blocked in the select *)

(** [RequestItems] as the last call left it. *)
Definition RequestItems_after (RequestItems : RequestMap) (tr : list wevent) : RequestMap :=
  default RequestItems (fst <$> last (calls_of tr)).

(** The [for { select { ... } }] loop of [dynamoDB.createBatchWriteWorker]. *)
Fixpoint worker_select (sel : list selected) (tableName : string) (failCount : Z)
    (RequestItems : RequestMap) : list wevent * worker_exit :=
  match sel with
  | [] => ([], Selecting)
  | SelQuit :: _ => ([], Exited)
  | SelWrite items answers :: sel' =>
      match worker_handle answers tableName failCount RequestItems items with
      | Completed failCount1 tr =>
          let '(tr', ex) := worker_select sel' tableName failCount1
                                          (RequestItems_after (<[tableName := items]> RequestItems) tr) in
          (tr ++ tr', ex)
      | o => (trace_of o, Halted o)
      end
  end.

(** [dynamoDB.createBatchWriteWorker] *)
Definition dynamoDB_createBatchWriteWorker (sel : list selected) (tableName : string)
  : list wevent * worker_exit :=
  worker_select sel tableName 0 ∅.

(** A request whose bulk writes come to full success: answers with an
    output, then a full success. *)
Definition completes (s : selected) : Prop :=
  match s with
  | SelQuit => False
  | SelWrite _ answers =>
      exists pre good rest,
        answers = pre ++ good :: rest /\ Forall (fun r => is_Some r.1) pre /\ full_success good
  end.

Definition is_ue_done (e : upload_event) : bool :=
  match e with UeDone => true | _ => false end.

Definition is_ue_sleep (e : upload_event) : bool :=
  match e with UeSleep => true | _ => false end.

Definition is_ue_write (e : upload_event) : bool :=
  match e with UeWrite _ => true | _ => false end.

Definition count_upload (p : upload_event -> bool) (evs : list upload_event) : nat :=
  length (filter (fun e => p e = true) evs).

(** A request map that names no table but [tableName]. *)
Definition only_table (tableName : string) (m : RequestMap) : Prop :=
  forall t, t ≠ tableName -> m !! t = None.

(** What a worker does for one selected request when nothing is left over
    from the request before. *)
Definition served_alone (tableName : string) (s : selected) : list wevent :=
  match s with
  | SelQuit => []
  | SelWrite items answers => trace_of (worker_handle answers tableName 0 ∅ items)
  end.

(** ** The batch with its backing arrays

    [batch.batchItems] is a Go slice: a window on a backing array that the
    slice sent to a worker and the slice kept by the batch may share.  Here
    the arrays are kept in a store, a slice is its array, length and
    capacity, and [Put] is followed on the store. *)

Record slice : Type := mkSlice { sl_array : nat; sl_len : nat; sl_cap : nat }.

(** The arrays allocated so far, each as long as its capacity, with [None]
    for an element that was never written. *)
Record store : Type := mkStore {
  arrays : gmap nat (list (option WriteRequest));
  next_array : nat
}.

(** The nil slice. *)
Definition nil_slice : slice := mkSlice 0 0 0.

Definition empty_store : store := mkStore ∅ 0.

(** The elements a slice shows. *)
Definition slice_elems (st : store) (s : slice) : list (option WriteRequest) :=
  take (sl_len s) (default [] (arrays st !! sl_array s)).

(** [s[:0]] *)
Definition slice_to_0 (s : slice) : slice := mkSlice (sl_array s) 0 (sl_cap s).

(** [append(s, x)]: within the capacity the element is written into the
    array of [s]; otherwise a new array of capacity [grow (cap s)] gets the
    elements of [s] and the new one. *)
Definition go_append (grow : nat -> nat) (st : store) (s : slice) (x : WriteRequest)
  : store * slice :=
  if (sl_len s <? sl_cap s)%nat then
    (mkStore (alter (fun arr => <[sl_len s := Some x]> arr) (sl_array s) (arrays st))
             (next_array st),
     mkSlice (sl_array s) (S (sl_len s)) (sl_cap s))
  else
    let cap := grow (sl_cap s) in
    let arr := slice_elems st s ++ [Some x] ++ replicate (cap - S (sl_len s)) None in
    (mkStore (<[next_array st := arr]> (arrays st)) (S (next_array st)),
     mkSlice (next_array st) (S (sl_len s)) cap).

Record shared_batch : Type := mkSharedBatch {
  sb_store : store;
  sb_batchItems : slice;
  sb_size : Z
}.

(** The actions of the batch, a send carrying the slice itself. *)
Inductive shared_action : Type :=
  | ShWgAdd
  | ShGoUpload (it : item)
  | ShSend (items : slice)
  | ShWgWait.

(** [dynamoDB.NewBatch]: [batchItems] is nil. *)
Definition shared_NewBatch : shared_batch := mkSharedBatch empty_store nil_slice 0.

(** [dynamoBatch.Reset] *)
Definition shared_Reset (batch : shared_batch) : shared_batch :=
  mkSharedBatch (sb_store batch) (slice_to_0 (sb_batchItems batch)) 0.

(** [dynamoBatch.Put] *)
Definition shared_Put (grow : nat -> nat) (batch : shared_batch) (key val : Bytes)
  : shared_batch * list shared_action * option error :=
  let data := mkDynamoData key val in
  let dataSize := len val in
  if dataSize =? 0 then (batch, [], None)
  else
    let '(data, dataSize, spawned) :=
      if len key + dataSize >? dynamoWriteSizeLimit
      then (mkDynamoData key overSizedDataPrefix, len overSizedDataPrefix,
            [ShWgAdd; ShGoUpload (mkItem key val)])
      else (data, dataSize, []) in
    match MarshalMap data with
    | (_, Some err) => (batch, spawned, Some err)
    | (marshaledData, None) =>
        let '(st1, items1) :=
          go_append grow (sb_store batch) (sb_batchItems batch) (mkWriteRequest marshaledData) in
        let batch1 := mkSharedBatch st1 items1 (sb_size batch + dataSize) in
        if Z.of_nat (sl_len (sb_batchItems batch1)) =? dynamoBatchSize
        then (shared_Reset batch1, spawned ++ [ShWgAdd; ShSend (sb_batchItems batch1)], None)
        else (batch1, spawned, None)
    end.

(** A slice that lies within an allocated array. *)
Definition slice_wf (st : store) (s : slice) : Prop :=
  (sl_len s <= sl_cap s)%nat /\
  (sl_cap s = 0%nat \/
   exists arr, arrays st !! sl_array s = Some arr /\ length arr = sl_cap s /\
               (sl_array s < next_array st)%nat) /\
  (forall a, (next_array st <= a)%nat -> arrays st !! a = None).

(** The batch with arrays shows what the batch of lists holds. *)
Definition shows (sb : shared_batch) (batch : dynamoBatch) : Prop :=
  slice_wf (sb_store sb) (sb_batchItems sb) /\
  slice_elems (sb_store sb) (sb_batchItems sb) = Some <$> batchItems batch /\
  sb_size sb = size batch.

(** The same action, seen through the store at the time it is taken. *)
Definition action_shows (st : store) (sa : shared_action) (a : action) : Prop :=
  match sa, a with
  | ShWgAdd, WgAdd => True
  | ShGoUpload it, GoUpload it' => it = it'
  | ShSend s, Send items => slice_elems st s = Some <$> items
  | ShWgWait, WgWait => True
  | _, _ => False
  end.

(** Capacities grow. *)
Definition grows (grow : nat -> nat) : Prop := forall c, (c < grow c)%nat.

(** The growth of small slices in the gc runtime: doubling, from one. *)
Definition doubling (c : nat) : nat := if (c =? 0)%nat then 1%nat else (2 * c)%nat.

(** A sequence of [Put] calls on the batch with arrays. *)
Fixpoint shared_put_all (grow : nat -> nat) (batch : shared_batch) (kvs : list (Bytes * Bytes))
  : shared_batch :=
  match kvs with
  | [] => batch
  | (key, val) :: kvs' =>
      match shared_Put grow batch key val with
      | (batch1, _, Some _) => batch1
      | (batch1, _, None) => shared_put_all grow batch1 kvs'
      end
  end.


(** * Properties *)

(** ** Byte slices and the codec *)

Lemma len_nonneg (b : Bytes) : 0 <= len b.
Proof. unfold len. lia. Qed.

Lemma len_zero_content (b : Bytes) : len b = 0 -> content b = [].
Proof.
  unfold len. intros H. destruct (content b) as [|x l]; [done | simpl in H; lia].
Qed.

Lemma len_replicate (n : Z) (x : byte) : 0 <= n -> len (Some (replicate (Z.to_nat n) x)) = n.
Proof. intros Hn. unfold len. simpl. rewrite length_replicate. lia. Qed.

Lemma len_sentinel : len overSizedDataPrefix = 13.
Proof. reflexivity. Qed.

Lemma encodeBytes_nonempty (b : Bytes) : len b ≠ 0 -> encodeBytes b = AttrB (content b).
Proof. intros H. unfold encodeBytes. by destruct (Z.eqb_spec (len b) 0). Qed.

Lemma encodeBytes_empty (b : Bytes) : len b = 0 -> encodeBytes b = AttrNULL.
Proof. intros H. unfold encodeBytes. by rewrite H. Qed.

Lemma MarshalMap_Key (d : DynamoData) : (MarshalMap d).1 !! "Key" = Some (encodeBytes (Key d)).
Proof. unfold MarshalMap. simpl. by rewrite lookup_insert_eq. Qed.

Lemma MarshalMap_Val (d : DynamoData) : (MarshalMap d).1 !! "Val" = Some (encodeBytes (Val d)).
Proof.
  unfold MarshalMap. simpl. rewrite lookup_insert_ne by done. by rewrite lookup_insert_eq.
Qed.

Lemma MarshalMap_ok (d : DynamoData) : MarshalMap d = ((MarshalMap d).1, None).
Proof. reflexivity. Qed.

(** Decoding an encoded row gives the key back, and the value with the
    empty value turned into nil. *)
Lemma UnmarshalMap_MarshalMap (k v : Bytes) :
  len k ≠ 0 ->
  UnmarshalMap (MarshalMap (mkDynamoData k v)).1
  = (mkDynamoData (Some (content k)) (if len v =? 0 then None else Some (content v)), None).
Proof.
  intros Hk. unfold UnmarshalMap. rewrite MarshalMap_Key, MarshalMap_Val. simpl.
  rewrite (encodeBytes_nonempty k Hk). simpl.
  destruct (Z.eqb_spec (len v) 0) as [Hv|Hv].
  - by rewrite (encodeBytes_empty v Hv).
  - by rewrite (encodeBytes_nonempty v Hv).
Qed.

(** ** dynamoDB.Put and dynamoDB.Get *)

(** A value that fits is written as one row, in one call. *)
Lemma Put_small (fuel : nat) (w : World) (k v : Bytes) :
  ddb_put_fault w = None -> len k ≠ 0 -> len k + len v <= dynamoWriteSizeLimit ->
  dynamoDB_Put (S fuel) w k v
  = Some (set_table w (<[content k := (MarshalMap (mkDynamoData k v)).1]> (table w)), None).
Proof.
  intros Hf Hk Hsz. cbn [dynamoDB_Put].
  destruct (Z.eqb_spec (len k) 0) as [|_]; [done|].
  destruct (Z.gtb_spec (len k + len v) dynamoWriteSizeLimit) as [|_]; [lia|].
  rewrite MarshalMap_ok. unfold PutItem. rewrite Hf, MarshalMap_Key. simpl.
  by rewrite (encodeBytes_nonempty k Hk).
Qed.

(** Reading a row back. *)
Lemma Get_row (fuel : nat) (w : World) (k : Bytes) (it : Item) (data : DynamoData) :
  ddb_get_fault w = None -> table w !! content k = Some it ->
  UnmarshalMap it = (data, None) ->
  dynamoDB_Get fuel w k
  = match Val data with
    | None => Some (Some [], None)
    | Some _ =>
        if bytes_Equal (Val data) overSizedDataPrefix then s3FileDB_read fuel w k
        else Some (Val data, None)
    end.
Proof.
  intros Hf Hrow Hdec. unfold dynamoDB_Get, GetItem. by rewrite Hf, Hrow, Hdec.
Qed.

(** C1, amended: for every non-empty key k and value v with
    len(k)+len(v) <= ITEM_MAX whose bytes are not the overflow sentinel
    "oversizeditem", put(k, v) succeeds and get(k) then returns exactly v,
    when the table store answers both calls. *)
Theorem small_round_trip_unless_sentinel (w : World) (k v : Bytes) :
  ddb_put_fault w = None -> ddb_get_fault w = None ->
  len k ≠ 0 -> len k + len v <= dynamoWriteSizeLimit ->
  content v ≠ content overSizedDataPrefix ->
  exists w', (forall fuel, dynamoDB_Put (S fuel) w k v = Some (w', None)) /\
    (forall fuel, dynamoDB_Get fuel w' k = Some (Some (content v), None)).
Proof.
  intros Hput Hget Hk Hsz Hv.
  set (row := (MarshalMap (mkDynamoData k v)).1).
  set (w' := set_table w (<[content k := row]> (table w))).
  exists w'. split; [intros fuel; by apply Put_small|].
  intros fuel.
  assert (Hrow : table w' !! content k = Some row) by apply lookup_insert_eq.
  rewrite (Get_row fuel w' k row _ Hget Hrow (UnmarshalMap_MarshalMap k v Hk)).
  simpl. destruct (Z.eqb_spec (len v) 0) as [Hz|Hz].
  - by rewrite (len_zero_content v Hz).
  - unfold bytes_Equal. simpl. by rewrite bool_decide_eq_false_2.
Qed.

Lemma small_round_trip_unless_sentinel_witness :
  exists w', (forall fuel, dynamoDB_Put (S fuel) empty_world (bytes_of "alpha") (bytes_of "beta")
                           = Some (w', None)) /\
    (forall fuel, dynamoDB_Get fuel w' (bytes_of "alpha") = Some (Some (content (bytes_of "beta")), None)).
Proof.
  apply (small_round_trip_unless_sentinel empty_world (bytes_of "alpha") (bytes_of "beta"));
    [reflexivity | reflexivity | vm_compute; discriminate | vm_compute; discriminate
    | vm_compute; discriminate].
Defined.

(** C1, as stated, fails on the value "oversizeditem": the row is written as
    it is, and [Get] takes it for the stub of an overflow blob that does not
    exist. *)
Lemma small_round_trip_fails_on_sentinel :
  healthy empty_world /\
  len (bytes_of "alpha") ≠ 0 /\
  len (bytes_of "alpha") + len (bytes_of "oversizeditem") <= dynamoWriteSizeLimit /\
  ~ small_round_trip empty_world (bytes_of "alpha") (bytes_of "oversizeditem").
Proof.
  split; [by repeat split|]. split; [vm_compute; discriminate|].
  split; [vm_compute; discriminate|].
  intros Hc. destruct Hc as (w' & Hput & fuel & r & Hget & _).
  - by repeat split.
  - vm_compute; discriminate.
  - vm_compute; discriminate.
  - specialize (Hput 0%nat). vm_compute in Hput. injection Hput as <-.
    unfold dynamoDB_Get in Hget. vm_compute in Hget. discriminate.
Qed.

(** ** Oversize values *)

Lemma s3FileDB_write_ok (w : World) (it : item) :
  s3_put_fault w = None ->
  s3FileDB_write w it
  = (set_bucket w (<[hexutil_Encode (content (item_key it)) := content (item_val it)]> (bucket w)),
     (hexutil_Encode (content (item_key it)), None)).
Proof. intros Hf. unfold s3FileDB_write, PutObject. by rewrite Hf. Qed.

Lemma s3FileDB_write_fault (w : World) (it : item) (e : error) :
  s3_put_fault w = Some e ->
  s3FileDB_write w it
  = (w, ("", Some ("failed to write item to S3. key: "
                     +:+ String.string_of_list_byte (content (item_key it))
                     +:+ ", err: " +:+ e))).
Proof. intros Hf. unfold s3FileDB_write, PutObject. by rewrite Hf. Qed.

(** The oversize branch: one blob write, then [Put] on the sentinel. *)
Lemma Put_oversize_step (fuel : nat) (w : World) (k v : Bytes) :
  len k ≠ 0 -> len k + len v > dynamoWriteSizeLimit ->
  dynamoDB_Put (S fuel) w k v
  = match s3FileDB_write w (mkItem k v) with
    | (w1, (_, Some err)) => Some (w1, Some err)
    | (w1, (_, None)) => dynamoDB_Put fuel w1 k overSizedDataPrefix
    end.
Proof.
  intros Hk Hsz. cbn [dynamoDB_Put].
  destruct (Z.eqb_spec (len k) 0) as [|_]; [done|].
  destruct (Z.gtb_spec (len k + len v) dynamoWriteSizeLimit) as [_|]; [done|lia].
Qed.

(** C4, amended: for every non-empty key k with len(k)+13 <= ITEM_MAX and
    value v with len(k)+len(v) > ITEM_MAX, put(k, v) first writes the blob
    (name hex(k), body v) and then persists the row of k whose Val is the
    sentinel "oversizeditem", when both stores answer; if the blob write
    fails, the error is returned and nothing is written.  (With the empty
    key, put is a no-op.) *)
Theorem oversize_put_writes_blob_then_sentinel (w : World) (k v : Bytes) :
  len k ≠ 0 -> len k + len overSizedDataPrefix <= dynamoWriteSizeLimit ->
  len k + len v > dynamoWriteSizeLimit ->
  (forall e, s3_put_fault w = Some e ->
     exists e', forall fuel, dynamoDB_Put (S fuel) w k v = Some (w, Some e')) /\
  (s3_put_fault w = None -> ddb_put_fault w = None ->
     exists w1 w',
       s3FileDB_write w (mkItem k v) = (w1, (hexutil_Encode (content k), None)) /\
       table w1 = table w /\
       bucket w1 !! hexutil_Encode (content k) = Some (content v) /\
       (forall fuel, dynamoDB_Put (S (S fuel)) w k v = Some (w', None)) /\
       bucket w' = bucket w1 /\
       table w' !! content k = Some (sentinel_row k) /\
       (UnmarshalMap (sentinel_row k)).1 = mkDynamoData (Some (content k)) overSizedDataPrefix).
Proof.
  intros Hk Hstub Hsz. split.
  - intros e He. eexists. intros fuel.
    rewrite (Put_oversize_step fuel w k v Hk Hsz).
    by rewrite (s3FileDB_write_fault w (mkItem k v) e He).
  - intros Hs3 Hddb.
    set (w1 := set_bucket w (<[hexutil_Encode (content k) := content v]> (bucket w))).
    set (w' := set_table w1 (<[content k := sentinel_row k]> (table w1))).
    exists w1, w'. split; [by apply s3FileDB_write_ok|].
    split; [done|]. split; [apply lookup_insert_eq|].
    split.
    { intros fuel. rewrite (Put_oversize_step (S fuel) w k v Hk Hsz).
      rewrite (s3FileDB_write_ok w (mkItem k v) Hs3). simpl item_key. simpl item_val.
      fold w1. by apply Put_small. }
    split; [done|]. split; [apply lookup_insert_eq|].
    unfold sentinel_row. by rewrite (UnmarshalMap_MarshalMap k overSizedDataPrefix Hk).
Qed.

Lemma len_big_value : len big_value = 500000.
Proof. unfold big_value. by apply len_replicate. Qed.

Lemma oversize_put_writes_blob_then_sentinel_witness :
  (forall e, s3_put_fault empty_world = Some e ->
     exists e', forall fuel,
       dynamoDB_Put (S fuel) empty_world (bytes_of "big") big_value = Some (empty_world, Some e')) /\
  (s3_put_fault empty_world = None -> ddb_put_fault empty_world = None ->
     exists w1 w',
       s3FileDB_write empty_world (mkItem (bytes_of "big") big_value)
         = (w1, (hexutil_Encode (content (bytes_of "big")), None)) /\
       table w1 = table empty_world /\
       bucket w1 !! hexutil_Encode (content (bytes_of "big")) = Some (content big_value) /\
       (forall fuel, dynamoDB_Put (S (S fuel)) empty_world (bytes_of "big") big_value = Some (w', None)) /\
       bucket w' = bucket w1 /\
       table w' !! content (bytes_of "big") = Some (sentinel_row (bytes_of "big")) /\
       (UnmarshalMap (sentinel_row (bytes_of "big"))).1
         = mkDynamoData (Some (content (bytes_of "big"))) overSizedDataPrefix).
Proof.
  apply (oversize_put_writes_blob_then_sentinel empty_world (bytes_of "big") big_value).
  - vm_compute; discriminate.
  - vm_compute; discriminate.
  - rewrite len_big_value. vm_compute. reflexivity.
Defined.

(** C4, as stated, fails on the empty key: [Put] returns at its first test
    and writes neither the blob nor the row. *)
Lemma oversize_put_fails_on_empty_key :
  len (Some []) + len big_value > dynamoWriteSizeLimit /\
  (forall fuel, dynamoDB_Put (S fuel) empty_world (Some []) big_value = Some (empty_world, None)) /\
  ~ oversize_put empty_world (Some []) big_value.
Proof.
  assert (Hsz : len (Some []) + len big_value > dynamoWriteSizeLimit).
  { rewrite len_big_value. vm_compute. reflexivity. }
  split; [exact Hsz|]. split; [done|].
  intros Hc. destruct (Hc Hsz) as [_ Hok].
  destruct Hok as (fuel & w1 & w' & _ & _ & _ & Hput & Hb & Hrow); [done..|].
  destruct fuel as [|fuel]; [discriminate|].
  cbn [dynamoDB_Put] in Hput. change (len (Some []) =? 0) with true in Hput.
  injection Hput as <-. cbn [table empty_world] in Hrow. by rewrite lookup_empty in Hrow.
Qed.

(** On a key so long that the sentinel row itself is oversize, [Put] calls
    itself with the same arguments again and again. *)
Lemma Put_oversize_key_never_returns (fuel : nat) (w : World) (k v : Bytes) :
  s3_put_fault w = None -> len k ≠ 0 ->
  len k + len overSizedDataPrefix > dynamoWriteSizeLimit ->
  len k + len v > dynamoWriteSizeLimit ->
  dynamoDB_Put fuel w k v = None.
Proof.
  revert w v. induction fuel as [|fuel IH]; intros w v Hs3 Hk Hstub Hsz; [done|].
  rewrite (Put_oversize_step fuel w k v Hk Hsz), (s3FileDB_write_ok w _ Hs3).
  by apply IH.
Qed.

(** C5: for every key k, get(k) fails with DataNotFound when the table has no
    row of k; returns the empty, non-nil byte sequence when the row's Val is
    nil; returns what BlobStore.read(k) returns when the row's Val equals the
    sentinel; and otherwise returns the stored Val unchanged.  (The table
    store answers the read.) *)
Theorem Get_by_cases (fuel : nat) (w : World) (k : Bytes) :
  ddb_get_fault w = None ->
  (table w !! content k = None ->
     dynamoDB_Get fuel w k = Some (None, Some dataNotFoundErr)) /\
  (forall it data,
     table w !! content k = Some it -> UnmarshalMap it = (data, None) ->
     (Val data = None -> dynamoDB_Get fuel w k = Some (Some [], None)) /\
     (Val data ≠ None -> content (Val data) = content overSizedDataPrefix ->
        dynamoDB_Get fuel w k = s3FileDB_read fuel w k) /\
     (Val data ≠ None -> content (Val data) ≠ content overSizedDataPrefix ->
        dynamoDB_Get fuel w k = Some (Val data, None))).
Proof.
  intros Hf. split.
  - intros Hrow. unfold dynamoDB_Get, GetItem. by rewrite Hf, Hrow.
  - intros it data Hrow Hdec. rewrite (Get_row fuel w k it data Hf Hrow Hdec).
    destruct (Val data) as [val|] eqn:Hval; (split; [|split]); try done.
    + intros _ Heq. unfold bytes_Equal. by rewrite bool_decide_eq_true_2.
    + intros _ Hne. unfold bytes_Equal. by rewrite bool_decide_eq_false_2.
Qed.

Lemma Get_by_cases_witness :
  dynamoDB_Get 0 empty_world (bytes_of "never-written") = Some (None, Some dataNotFoundErr) /\
  dynamoDB_Get 0 (world_with_row (bytes_of "k") (MarshalMap (mkDynamoData (bytes_of "k") None)).1)
               (bytes_of "k") = Some (Some [], None) /\
  dynamoDB_Get 0 (world_with_row (bytes_of "k") (sentinel_row (bytes_of "k"))) (bytes_of "k")
    = s3FileDB_read 0 (world_with_row (bytes_of "k") (sentinel_row (bytes_of "k"))) (bytes_of "k") /\
  dynamoDB_Get 0 (world_with_row (bytes_of "k") (MarshalMap (mkDynamoData (bytes_of "k") (bytes_of "v"))).1)
               (bytes_of "k") = Some (bytes_of "v", None).
Proof.
  split; [|split; [|split]].
  - apply (Get_by_cases 0 empty_world (bytes_of "never-written")); reflexivity.
  - refine (proj1 (proj2 (Get_by_cases 0 _ (bytes_of "k") _) _ (mkDynamoData (bytes_of "k") None) _ _) _);
      reflexivity.
  - refine (proj1 (proj2 (proj2 (Get_by_cases 0 _ (bytes_of "k") _) _
              (mkDynamoData (bytes_of "k") overSizedDataPrefix) _ _)) _ _);
      [reflexivity | reflexivity | reflexivity | discriminate | reflexivity].
  - refine (proj2 (proj2 (proj2 (Get_by_cases 0 _ (bytes_of "k") _) _
              (mkDynamoData (bytes_of "k") (bytes_of "v")) _ _)) _ _);
      [reflexivity | reflexivity | reflexivity | discriminate | vm_compute; discriminate].
Defined.

(** ** dynamoDB.Has *)

(** C7, amended: has(k) returns true, with no error, exactly when get(k)
    succeeds; when get(k) fails, with DataNotFound or with any other error,
    has(k) returns false together with that same error. *)
Theorem Has_returns_every_error (fuel : nat) (w : World) (k : Bytes) :
  (dynamoDB_Has fuel w k = Some (true, None) <->
     exists r, dynamoDB_Get fuel w k = Some (r, None)) /\
  (forall r e, dynamoDB_Get fuel w k = Some (r, Some e) ->
     dynamoDB_Has fuel w k = Some (false, Some e)).
Proof.
  unfold dynamoDB_Has. destruct (dynamoDB_Get fuel w k) as [[r [e|]]|]; split.
  - split; [discriminate | intros [r' Hr]; discriminate].
  - intros r' e' Heq. by simplify_eq.
  - split; [by exists r | done].
  - intros r' e' Heq. discriminate.
  - split; [discriminate | intros [r' Hr]; discriminate].
  - intros r' e' Heq. discriminate.
Qed.

(** C7, as stated, fails on a key that was never written: [Has] returns false
    and the error [dataNotFoundErr] with it. *)
Lemma Has_surfaces_not_found :
  dynamoDB_Get 0 empty_world (bytes_of "never-written") = Some (None, Some dataNotFoundErr) /\
  dynamoDB_Has 0 empty_world (bytes_of "never-written") = Some (false, Some dataNotFoundErr) /\
  ~ has_maps_not_found 0 empty_world (bytes_of "never-written").
Proof.
  split; [reflexivity|]. split; [reflexivity|].
  intros (_ & Hnf & _). specialize (Hnf None eq_refl). discriminate.
Qed.

(** ** s3FileDB.read *)

(** Once [buf] has been cut to length zero, every [Read] delivers nothing
    and the loop makes no progress. *)
Lemma read_loop_empty_buffer (fuel : nat) :
  forall data steps bodySize total ret,
    Forall benign steps -> total < bodySize ->
    read_loop fuel (mkReadCloser data steps) bodySize total 0 ret = None.
Proof.
  induction fuel as [|fuel IH]; intros data steps bodySize total ret Hben Hlt; [done|].
  cbn [read_loop]. destruct (Z.ltb_spec total bodySize) as [_|]; [|lia].
  unfold Body_Read. cbn [rc_steps rc_data].
  destruct steps as [|st steps].
  - change (Z.to_nat 0) with 0%nat. rewrite drop_0, take_0. cbn [length].
    assert (Hgo : total + Z.of_nat 0 < bodySize) by lia.
    destruct (bool_decide (data = [])).
    + change (negb (strings_Contains "EOF" "EOF")) with false. cbn iota.
      by apply IH.
    + by apply IH.
  - change (Nat.min (Z.to_nat 0) (rs_cap st)) with 0%nat. rewrite drop_0, take_0. cbn [length].
    assert (Hgo : total + Z.of_nat 0 < bodySize) by lia.
    inversion Hben as [|? ? Hst Hsteps]; subst. unfold benign in Hst.
    destruct (rs_err st) as [e|].
    + rewrite Hst. cbn [negb]. by apply IH.
    + by apply IH.
Qed.

(** When the first [Read] delivers less than the whole body, [read] does not
    return, whatever the stream does afterwards short of a fatal error. *)
Lemma read_spins_after_short_first_read (w : World) (key : Bytes) (body : list byte)
    (st : ReadStep) (steps : list ReadStep) :
  s3_get_fault w = None ->
  bucket w !! hexutil_Encode (content key) = Some body ->
  s3_read_script w = st :: steps ->
  (rs_cap st < length body)%nat -> Forall benign (st :: steps) ->
  forall fuel, s3FileDB_read fuel w key = None.
Proof.
  intros Hf Hobj Hscript Hcap Hben fuel.
  unfold s3FileDB_read, GetObject. rewrite Hf, Hobj, Hscript. cbn [ContentLength Body].
  destruct fuel as [|fuel]; [done|].
  cbn [read_loop]. destruct (Z.ltb_spec 0 (Z.of_nat (length body))) as [_|]; [|lia].
  unfold Body_Read. cbn [rc_steps rc_data].
  rewrite Nat2Z.id, Nat.min_r by lia.
  inversion Hben as [|? ? Hst Hsteps]; subst. unfold benign in Hst.
  assert (Hgo : 0 + Z.of_nat (length (take (rs_cap st) body)) < Z.of_nat (length body)).
  { rewrite length_take. lia. }
  destruct (rs_err st) as [e|].
  - rewrite Hst. cbn [negb]. by apply read_loop_empty_buffer.
  - by apply read_loop_empty_buffer.
Qed.

(** When the first [Read] fills the buffer, [read] returns the body. *)
Lemma read_returns_body_read_at_once (w : World) (key : Bytes) (body : list byte) :
  s3_get_fault w = None ->
  bucket w !! hexutil_Encode (content key) = Some body ->
  s3_read_script w = [] ->
  forall fuel, s3FileDB_read (S (S fuel)) w key = Some (append_bytes None body, None).
Proof.
  intros Hf Hobj Hscript fuel.
  unfold s3FileDB_read, GetObject. rewrite Hf, Hobj, Hscript. cbn [ContentLength Body].
  cbn [read_loop]. destruct (Z.ltb_spec 0 (Z.of_nat (length body))) as [Hpos|Hnil].
  - unfold Body_Read. cbn [rc_steps rc_data]. rewrite Nat2Z.id.
    rewrite drop_all, firstn_all. rewrite bool_decide_eq_true_2 by done.
    change (negb (strings_Contains "EOF" "EOF")) with false. cbn iota.
    destruct (Z.ltb_spec (0 + Z.of_nat (length body)) (Z.of_nat (length body))); [lia|done].
  - destruct body; [done | simpl in Hnil; lia].
Qed.

(** C8, on the code: a body of two bytes whose stream delivers one byte at
    the first [Read].  After the first [Read] the buffer is cut to length zero
    ([buf = buf[:0]]), so the loop never gets the second byte and [read]
    does not return, with any amount of fuel. *)
Theorem read_does_not_return_on_short_chunks :
  forall fuel, s3FileDB_read fuel short_read_world (bytes_of "k") = None.
Proof.
  apply (read_spins_after_short_first_read short_read_world (bytes_of "k")
           (String.list_byte_of_string "ab") (mkReadStep 1 None) []).
  - reflexivity.
  - reflexivity.
  - reflexivity.
  - vm_compute. lia.
  - repeat constructor.
Qed.

(** ** The batch-write worker *)

Lemma after_after (a b : list wevent) (o : outcome) : after a (after b o) = after (a ++ b) o.
Proof. destruct o; simpl; by rewrite app_assoc. Qed.

Lemma trace_of_after (evs : list wevent) (o : outcome) : trace_of (after evs o) = evs ++ trace_of o.
Proof. by destruct o. Qed.

Lemma full_success_dec (out : BatchWriteItemOutput) (err : option error) :
  bool_decide (err ≠ None) || negb (Z.of_nat (base.size (UnprocessedItems out)) =? 0) = false <->
  full_success (Some out, err).
Proof.
  unfold full_success. rewrite orb_false_iff, negb_false_iff, Z.eqb_eq, bool_decide_eq_false.
  split.
  - intros [He Hn]. exists out. split; [|lia]. destruct err; [by destruct He|done].
  - intros (out' & Heq & Hn). simplify_eq. split; [by intros H | lia].
Qed.

Lemma resubmission_eq (tableName : string) (req : RequestMap) (out : BatchWriteItemOutput)
    (err : option error) :
  (if negb (Z.of_nat (base.size (UnprocessedItems out)) =? 0)
   then <[tableName := default [] (UnprocessedItems out !! tableName)]> req
   else req)
  = resubmission tableName req (Some out, err).
Proof.
  unfold resubmission. destruct (Z.eqb_spec (Z.of_nat (base.size (UnprocessedItems out))) 0).
  - rewrite bool_decide_eq_true_2 by lia. done.
  - rewrite bool_decide_eq_false_2 by lia. done.
Qed.

(** The equation of [called]. *)
Lemma called_eq (script : list response) (tableName : string) (failCount : Z)
    (req : RequestMap) (out : BatchWriteItemOutput) (err : option error) :
  called script tableName failCount req out err
  = if bool_decide (err ≠ None) || negb (Z.of_nat (base.size (UnprocessedItems out)) =? 0) then
      let here := EvBatchWriteItem req (Some out, err) :: logs_after failCount err in
      let req1 := resubmission tableName req (Some out, err) in
      match script with
      | [] => Retrying (failCount_after failCount err) here
      | (None, err1) :: _ => Panicked (here ++ [EvBatchWriteItem req1 (None, err1)])
      | (Some out1, err1) :: script1 =>
          after here (called script1 tableName (failCount_after failCount err) req1 out1 err1)
      end
    else Completed 0 [EvBatchWriteItem req (Some out, err); EvDone].
Proof.
  assert (Hlogs :
    (if bool_decide (err ≠ None)
     then EvWarn (failCount_after failCount err)
          :: (if failCount_after failCount err >? dynamoMaxRetry then [EvSleep] else [])
     else []) = logs_after failCount err).
  { unfold logs_after, failCount_after. by destruct (bool_decide (err ≠ None)). }
  unfold called at 1. destruct script as [|[[out1|] err1] script1]; cbn [worker_loop];
    fold (failCount_after failCount err); rewrite Hlogs;
    try rewrite (resubmission_eq tableName req out err);
    destruct (bool_decide (err ≠ None) || negb (Z.of_nat (base.size (UnprocessedItems out)) =? 0));
    try reflexivity.
  unfold called. cbn zeta. by rewrite !after_after.
Qed.

Lemma worker_handle_eq (script : list response) (tableName : string) (failCount : Z)
    (RequestItems : RequestMap) (items : list WriteRequest) :
  worker_handle script tableName failCount RequestItems items
  = match script with
    | [] => Retrying failCount []
    | (None, err) :: _ => Panicked [EvBatchWriteItem (<[tableName := items]> RequestItems) (None, err)]
    | (Some out, err) :: script1 =>
        called script1 tableName failCount (<[tableName := items]> RequestItems) out err
    end.
Proof. by destruct script as [|[[out|] err] script1]. Qed.

Lemma calls_of_logs (failCount : Z) (err : option error) : calls_of (logs_after failCount err) = [].
Proof. unfold logs_after. by repeat case_match. Qed.

Lemma dones_of_logs (failCount : Z) (err : option error) : dones_of (logs_after failCount err) = 0%nat.
Proof. unfold logs_after. by repeat case_match. Qed.

Lemma warns_of_logs (failCount : Z) (err : option error) :
  warns_of (logs_after failCount err)
  = if bool_decide (err ≠ None) then [failCount + 1] else [].
Proof. unfold logs_after. by repeat case_match. Qed.

Lemma calls_of_app (a b : list wevent) : calls_of (a ++ b) = calls_of a ++ calls_of b.
Proof. apply omap_app. Qed.

Lemma warns_of_app (a b : list wevent) : warns_of (a ++ b) = warns_of a ++ warns_of b.
Proof. apply omap_app. Qed.

Lemma dones_of_app (a b : list wevent) : dones_of (a ++ b) = (dones_of a + dones_of b)%nat.
Proof. unfold dones_of. by rewrite filter_app, length_app. Qed.

Lemma not_full_success_nil (err : option error) : ~ full_success (None, err).
Proof. intros (out & Heq & _). discriminate. Qed.

Lemma warns_shift (failCount : Z) (n : nat) :
  (failCount + 1) :: ((fun i => failCount + 1 + Z.of_nat i) <$> seq 1 n)
  = (fun i => failCount + Z.of_nat i) <$> seq 1 (S n).
Proof.
  cbn [seq fmap list_fmap]. f_equal.
  rewrite <- (fmap_S_seq 1), <- list_fmap_compose. apply list_fmap_ext. intros _ i _. simpl. lia.
Qed.

(** One more failed call in front of a run keeps [well_run]. *)
Lemma well_run_after (tableName : string) (failCount : Z) (req : RequestMap)
    (out : BatchWriteItemOutput) (err : option error) (o : outcome) (c : RequestMap * response) :
  ~ full_success (Some out, err) ->
  well_run tableName (failCount_after failCount err) o ->
  head (calls_of (trace_of o)) = Some c ->
  c.1 = resubmission tableName req (Some out, err) ->
  well_run tableName failCount
           (after (EvBatchWriteItem req (Some out, err) :: logs_after failCount err) o).
Proof.
  intros Hnot (Hch & Hw & Ho) Hhead Hc.
  set (here := EvBatchWriteItem req (Some out, err) :: logs_after failCount err).
  assert (Hcalls : forall tr, calls_of (here ++ tr) = (req, (Some out, err)) :: calls_of tr).
  { intros tr. rewrite calls_of_app. unfold here. change (calls_of (?e :: ?l)) with
      ((req, (Some out, err)) :: calls_of (logs_after failCount err)).
    by rewrite calls_of_logs. }
  assert (Hdones : forall tr, dones_of (here ++ tr) = dones_of tr).
  { intros tr. rewrite dones_of_app. unfold here.
    change (dones_of (?e :: ?l)) with (dones_of (logs_after failCount err)).
    by rewrite dones_of_logs. }
  assert (Hwarns : forall tr, warns_of (here ++ tr)
                   = (if bool_decide (err ≠ None) then [failCount + 1] else []) ++ warns_of tr).
  { intros tr. rewrite warns_of_app. unfold here.
    change (warns_of (?e :: ?l)) with (warns_of (logs_after failCount err)).
    by rewrite warns_of_logs. }
  assert (Hw' : forall tr,
    warns_of tr = (fun i => failCount_after failCount err + Z.of_nat i)
                    <$> seq 1 (length (warns_of tr)) ->
    warns_of (here ++ tr)
    = (fun i => failCount + Z.of_nat i) <$> seq 1 (length (warns_of (here ++ tr)))).
  { intros tr Htr. rewrite Hwarns. unfold failCount_after in Htr.
    destruct (bool_decide (err ≠ None)); [|done].
    cbn [app length]. rewrite <- warns_shift. by rewrite <- Htr. }
  split; [|split].
  - rewrite trace_of_after, Hcalls.
    destruct (calls_of (trace_of o)) as [|c' cs]; [done|].
    simpl in Hhead. simplify_eq. by split.
  - rewrite trace_of_after. by apply Hw'.
  - destruct o as [fc tr|tr|fc tr]; cbn [after]; fold here.
    + destruct Ho as (-> & tr' & req' & resp' & -> & Hfull & Hd & Hall).
      split; [done|]. exists (here ++ tr'), req', resp'.
      split; [by rewrite app_assoc|]. split; [done|]. split; [by rewrite Hdones|].
      rewrite Hcalls. by constructor.
    + destruct Ho as (Hd & Hall & tr' & req' & err' & ->).
      split; [by rewrite Hdones|]. split; [rewrite Hcalls; by constructor|].
      exists (here ++ tr'), req', err'. by rewrite app_assoc.
    + destruct Ho as (Hd & Hall & ->).
      split; [by rewrite Hdones|]. split; [rewrite Hcalls; by constructor|].
      rewrite Hwarns. unfold failCount_after.
      destruct (bool_decide (err ≠ None)); cbn [app length]; lia.
Qed.

Lemma well_run_completed (tableName : string) (failCount : Z) (req : RequestMap)
    (out : BatchWriteItemOutput) (err : option error) :
  full_success (Some out, err) ->
  well_run tableName failCount (Completed 0 [EvBatchWriteItem req (Some out, err); EvDone]).
Proof.
  intros Hfull. split; [done|]. split; [done|]. split; [done|].
  exists [], req, (Some out, err). by repeat split.
Qed.

Lemma well_run_retrying (tableName : string) (failCount : Z) (req : RequestMap)
    (out : BatchWriteItemOutput) (err : option error) :
  ~ full_success (Some out, err) ->
  well_run tableName failCount
    (Retrying (failCount_after failCount err)
              (EvBatchWriteItem req (Some out, err) :: logs_after failCount err)).
Proof.
  intros Hnot.
  assert (Hcalls : calls_of (EvBatchWriteItem req (Some out, err) :: logs_after failCount err)
                   = [(req, (Some out, err))]).
  { change (calls_of (?e :: ?l)) with ((req, (Some out, err)) :: calls_of l).
    by rewrite calls_of_logs. }
  assert (Hwarns : warns_of (EvBatchWriteItem req (Some out, err) :: logs_after failCount err)
                   = if bool_decide (err ≠ None) then [failCount + 1] else []).
  { change (warns_of (?e :: ?l)) with (warns_of l). by rewrite warns_of_logs. }
  assert (Hdones : dones_of (EvBatchWriteItem req (Some out, err) :: logs_after failCount err)
                   = 0%nat).
  { change (dones_of (?e :: ?l)) with (dones_of l). by rewrite dones_of_logs. }
  unfold well_run. cbn [trace_of]. rewrite Hcalls, Hwarns, Hdones.
  split; [done|]. split.
  - destruct (bool_decide (err ≠ None)); [|done]. cbn. f_equal; lia.
  - split; [done|]. split; [by repeat constructor|].
    unfold failCount_after. destruct (bool_decide (err ≠ None)); cbn [length]; lia.
Qed.

Lemma well_run_panicked (tableName : string) (failCount : Z) (req : RequestMap)
    (err : option error) :
  well_run tableName failCount (Panicked [EvBatchWriteItem req (None, err)]).
Proof.
  split; [done|]. split; [done|]. split; [done|].
  split; [repeat constructor; apply not_full_success_nil|].
  by exists [], req, err.
Qed.

(** Every run of the retry loop is a [well_run], and starts with the call
    it was entered on. *)
Lemma called_well_run (tableName : string) (script : list response) :
  forall failCount req out err,
    well_run tableName failCount (called script tableName failCount req out err) /\
    head (calls_of (trace_of (called script tableName failCount req out err)))
      = Some (req, (Some out, err)).
Proof.
  induction script as [|[[out1|] err1] script1 IH]; intros failCount req out err;
    rewrite called_eq;
    destruct (bool_decide (err ≠ None) || negb (Z.of_nat (base.size (UnprocessedItems out)) =? 0))
      eqn:Hcond;
    try (apply full_success_dec in Hcond; split; [by apply well_run_completed | done]);
    assert (Hnot : ~ full_success (Some out, err))
      by (rewrite <- full_success_dec; by rewrite Hcond);
    cbn zeta.
  - split; [by apply well_run_retrying | done].
  - destruct (IH (failCount_after failCount err) (resubmission tableName req (Some out, err))
                 out1 err1) as [Hrun Hhead].
    split; [by eapply well_run_after|]. by rewrite trace_of_after.
  - change (Panicked (?here ++ ?last)) with (after here (Panicked last)).
    split; [|by rewrite trace_of_after].
    eapply well_run_after; [done | apply well_run_panicked | done | done].
Qed.

(** With non-nil answers up to an answer of full success, the worker gets
    to [Done]. *)
Lemma called_completes (tableName : string) (pre : list response) (good : response)
    (rest : list response) :
  Forall (fun r => is_Some r.1) pre -> full_success good ->
  forall failCount req out err,
    is_Completed (called (pre ++ good :: rest) tableName failCount req out err).
Proof.
  intros Hpre (outg & -> & Hg). induction Hpre as [|[[out1|] err1] pre [? Hsome] Hpre IH];
    intros failCount req out err; rewrite called_eq;
    destruct (bool_decide (err ≠ None) || negb (Z.of_nat (base.size (UnprocessedItems out)) =? 0));
    try done; cbn zeta; cbn [app].
  - rewrite called_eq. cbn [bool_decide]. rewrite Hg.
    rewrite bool_decide_eq_false_2 by (by intros H). done.
  - specialize (IH (failCount_after failCount err)
                   (resubmission tableName req (Some out, err)) out1 err1).
    by destruct (called _ _ _ _ _ _).
Qed.

Lemma chained_lookup (tableName : string) (cs : list (RequestMap * response)) :
  chained tableName cs ->
  forall i c c', cs !! i = Some c -> cs !! S i = Some c' ->
    c'.1 = resubmission tableName c.1 c.2.
Proof.
  induction cs as [|c0 cs IH]; intros Hch i c c' Hi HSi; [done|].
  destruct cs as [|c1 cs]; [done|]. destruct Hch as [H01 Hch].
  destruct i as [|i]; simplify_eq/=; [done|]. by eapply IH.
Qed.

(** C6: for every batch request a worker takes from the queue, the barrier is
    signalled at most once, and exactly once, as the worker's last step, when
    the request completes: right after a bulk-write call answered with no
    error and no unprocessed items, every call before having fallen short
    of that.  Each call after the first resubmits the unprocessed items of
    the answer before (the same request when there were none).  The failure
    counter goes up by one with every error and is set to zero only on
    completion.  The worker completes once an answer of full success
    arrives. *)
Theorem worker_signals_once_on_full_success (script : list response) (tableName : string)
    (failCount : Z) (RequestItems : RequestMap) (items : list WriteRequest) :
  let o := worker_handle script tableName failCount RequestItems items in
  let calls := calls_of (trace_of o) in
  (match o with
   | Completed fc tr =>
       fc = 0 /\ dones_of tr = 1%nat /\
       exists tr' req resp,
         tr = tr' ++ [EvBatchWriteItem req resp; EvDone] /\ full_success resp /\
         Forall (fun c => ~ full_success c.2) (calls_of tr')
   | Panicked tr => dones_of tr = 0%nat /\ Forall (fun c => ~ full_success c.2) (calls_of tr)
   | Retrying fc tr =>
       dones_of tr = 0%nat /\ Forall (fun c => ~ full_success c.2) (calls_of tr) /\
       fc = failCount + Z.of_nat (length (warns_of tr))
   end) /\
  (forall c, calls !! 0%nat = Some c -> c.1 = <[tableName := items]> RequestItems) /\
  (forall i c c', calls !! i = Some c -> calls !! S i = Some c' ->
     c'.1 = resubmission tableName c.1 c.2) /\
  warns_of (trace_of o)
    = (fun i => failCount + Z.of_nat i) <$> seq 1 (length (warns_of (trace_of o))) /\
  (forall pre good rest,
     script = pre ++ good :: rest -> Forall (fun r => is_Some r.1) pre -> full_success good ->
     is_Completed o).
Proof.
  intros o calls. subst calls o. rewrite worker_handle_eq.
  destruct script as [|[[out|] err] script1].
  - (* no answer yet *)
    cbn [trace_of calls_of warns_of omap]. repeat split; try done.
    + change (warns_of []) with (@nil Z). cbn [length]. lia.
    + intros pre good rest Heq. by destruct pre.
  - destruct (called_well_run tableName script1 failCount (<[tableName := items]> RequestItems)
                out err) as [(Hch & Hw & Ho) Hhead].
    split; [|split; [|split; [|split]]].
    + destruct (called _ _ _ _ _ _) as [fc tr|tr|fc tr].
      * destruct Ho as (-> & tr' & req & resp & -> & Hfull & Hd & Hall).
        split; [done|]. split; [|by exists tr', req, resp].
        rewrite dones_of_app, Hd. reflexivity.
      * by destruct Ho as (Hd & Hall & _).
      * done.
    + intros c Hc. rewrite <- head_lookup, Hhead in Hc. by simplify_eq.
    + by apply chained_lookup.
    + done.
    + intros pre good rest Heq Hpre Hgood. destruct pre as [|r pre]; simplify_eq/=.
      * rewrite called_eq. apply full_success_dec in Hgood. by rewrite Hgood.
      * inversion Hpre; subst. by apply called_completes.
  - (* the first answer is a nil output *)
    cbn [trace_of]. repeat split; try done.
    + repeat constructor. apply not_full_success_nil.
    + intros c Hc. by simplify_eq/=.
    + intros pre good rest Heq Hpre Hgood. destruct pre as [|r pre]; simplify_eq/=.
      * by apply not_full_success_nil in Hgood.
      * inversion Hpre as [|? ? [? Hsome] ?]. discriminate.
Qed.

Lemma is_Panicked_after (evs : list wevent) (o : outcome) : is_Panicked (after evs o) <-> is_Panicked o.
Proof. by destruct o. Qed.

Lemma called_panics_iff (tableName : string) (script : list response) :
  forall failCount req out err,
    is_Panicked (called script tableName failCount req out err) <->
    ~ full_success (Some out, err) /\
    exists pre err' rest, script = pre ++ (None, err') :: rest /\ Forall retried pre.
Proof.
  induction script as [|[[out1|] err1] script1 IH]; intros failCount req out err;
    rewrite called_eq;
    destruct (bool_decide (err ≠ None) || negb (Z.of_nat (base.size (UnprocessedItems out)) =? 0))
      eqn:Hcond;
    try (apply full_success_dec in Hcond; split; [done | by intros [Hnot _]]);
    assert (Hnot : ~ full_success (Some out, err))
      by (rewrite <- full_success_dec; by rewrite Hcond);
    cbn zeta.
  - split; [done|]. intros (_ & pre & err' & rest & Heq & _). by destruct pre.
  - rewrite is_Panicked_after, IH. split.
    + intros (Hnot1 & pre & err' & rest & -> & Hpre). split; [done|].
      exists ((Some out1, err1) :: pre), err', rest. split; [done|].
      constructor; [|done]. split; [by eexists | done].
    + intros (_ & pre & err' & rest & Heq & Hpre).
      destruct pre as [|r pre]; simplify_eq/=.
      inversion Hpre as [|? ? [_ Hnot1] Hpre']; subst. split; [done|].
      by exists pre, err', rest.
  - split; [|done]. intros _. split; [done|]. by exists [], err1, script1.
Qed.

(** C9: in the worker loop the unprocessed items of an answer are read
    whether or not the call reported an error, so the worker runs into a nil
    dereference exactly when a bulk-write call it makes hands back a nil
    output, with or without an error; it never does when every call hands
    back an output. *)
Theorem worker_panics_iff_nil_output (script : list response) (tableName : string)
    (failCount : Z) (RequestItems : RequestMap) (items : list WriteRequest) :
  (is_Panicked (worker_handle script tableName failCount RequestItems items) <->
   exists pre err rest, script = pre ++ (None, err) :: rest /\ Forall retried pre) /\
  (Forall (fun r => is_Some r.1) script ->
   ~ is_Panicked (worker_handle script tableName failCount RequestItems items)).
Proof.
  assert (Hiff :
    is_Panicked (worker_handle script tableName failCount RequestItems items) <->
    exists pre err rest, script = pre ++ (None, err) :: rest /\ Forall retried pre).
  { rewrite worker_handle_eq. destruct script as [|[[out|] err] script1].
    - split; [done|]. intros (pre & err' & rest & Heq & _). by destruct pre.
    - rewrite called_panics_iff. split.
      + intros (Hnot & pre & err' & rest & -> & Hpre).
        exists ((Some out, err) :: pre), err', rest. split; [done|].
        constructor; [|done]. split; [by eexists | done].
      + intros (pre & err' & rest & Heq & Hpre).
        destruct pre as [|r pre]; simplify_eq/=.
        inversion Hpre as [|? ? [_ Hnot] Hpre']; subst. split; [done|].
        by exists pre, err', rest.
    - split; [|done]. intros _. by exists [], err, script1. }
  split; [exact Hiff|].
  intros Hall Hp. apply Hiff in Hp as (pre & err & rest & -> & _).
  apply Forall_app in Hall as [_ Hall]. inversion Hall as [|? ? [? Hsome] ?]. discriminate.
Qed.

Lemma worker_panics_iff_nil_output_witness :
  ~ is_Panicked (worker_handle [(Some (mkBatchWriteItemOutput ∅), Some "throttled");
                                (Some (mkBatchWriteItemOutput ∅), None)]
                               "table" 0 ∅ []).
Proof.
  apply (proj2 (worker_panics_iff_nil_output
                  [(Some (mkBatchWriteItemOutput ∅), Some "throttled");
                   (Some (mkBatchWriteItemOutput ∅), None)] "table" 0 ∅ [])).
  repeat constructor; by eexists.
Defined.

(** ** dynamoBatch *)

Lemma Put_eq (batch : dynamoBatch) (key val : Bytes) :
  dynamoBatch_Put batch key val
  = if len val =? 0 then (batch, [], None)
    else
      let batch1 := mkBatch (batchItems batch ++ [put_request key val])
                            (size batch + len (stored_val key val)) in
      if Z.of_nat (length (batchItems batch1)) =? dynamoBatchSize
      then (dynamoBatch_Reset batch1,
            put_spawned key val ++ [WgAdd; Send (batchItems batch1)], None)
      else (batch1, put_spawned key val, None).
Proof.
  unfold dynamoBatch_Put, put_request, put_spawned, stored_val.
  destruct (len val =? 0); [done|].
  by destruct (len key + len val >? dynamoWriteSizeLimit).
Qed.

Lemma stored_val_pos (key val : Bytes) : len val ≠ 0 -> 0 < len (stored_val key val).
Proof.
  intros Hv. unfold stored_val. destruct (len key + len val >? dynamoWriteSizeLimit).
  - by rewrite len_sentinel.
  - pose proof (len_nonneg val). lia.
Qed.

Lemma sends_of_spawned (key val : Bytes) : sends_of (put_spawned key val) = [].
Proof. unfold put_spawned. by case_match. Qed.

Lemma sends_of_app (a b : list action) : sends_of (a ++ b) = sends_of a ++ sends_of b.
Proof. apply omap_app. Qed.

(** One [Put] of a non-empty value on a batch in [batch_inv]. *)
Lemma Put_step (batch : dynamoBatch) (key val : Bytes) :
  batch_inv batch -> len val ≠ 0 ->
  exists batch' acts,
    dynamoBatch_Put batch key val = (batch', acts, None) /\ batch_inv batch' /\
    ((pending batch + 1 = dynamoBatchSize /\ batch' = mkBatch [] 0 /\
      acts = put_spawned key val ++ [WgAdd; Send (batchItems batch ++ [put_request key val])]) \/
     (pending batch + 1 < dynamoBatchSize /\
      batch' = mkBatch (batchItems batch ++ [put_request key val])
                       (size batch + len (stored_val key val)) /\
      acts = put_spawned key val)).
Proof.
  intros (Hlt & Hsz & Hiff) Hv. rewrite Put_eq.
  destruct (Z.eqb_spec (len val) 0) as [|_]; [done|]. cbn zeta. cbn [batchItems].
  pose proof (stored_val_pos key val Hv) as Hpos.
  assert (Hlen : Z.of_nat (length (batchItems batch ++ [put_request key val])) = pending batch + 1).
  { rewrite length_app. unfold pending. simpl. lia. }
  destruct (Z.eqb_spec (Z.of_nat (length (batchItems batch ++ [put_request key val])))
                       dynamoBatchSize) as [Heq|Hne]; [rewrite Hlen in Heq | rewrite Hlen in Hne].
  - eexists _, _. split; [done|]. split; [|left; by repeat split].
    unfold batch_inv, pending, dynamoBatchSize. simpl. repeat split; lia || done.
  - eexists _, _. split; [done|]. split; [|right; repeat split; lia || done].
    unfold batch_inv, pending. cbn [batchItems size]. rewrite Hlen.
    repeat split; try lia.
    intros Hnil. by destruct (batchItems batch).
Qed.

Lemma NewBatch_inv : batch_inv dynamoDB_NewBatch.
Proof. unfold batch_inv, pending, dynamoBatchSize. simpl. repeat split; lia || done. Qed.

Lemma Reset_inv (batch : dynamoBatch) : batch_inv (dynamoBatch_Reset batch).
Proof.
  unfold batch_inv, dynamoBatch_Reset, pending, dynamoBatchSize. cbn [batchItems size].
  rewrite take_0. simpl. repeat split; lia || done.
Qed.

Lemma non_empty_count_cons (key val : Bytes) (kvs : list (Bytes * Bytes)) :
  non_empty_count ((key, val) :: kvs)
  = (if len val =? 0 then 0 else 1) + non_empty_count kvs.
Proof.
  unfold non_empty_count. rewrite filter_cons. cbn [snd].
  destruct (Z.eqb_spec (len val) 0) as [Hz|Hz].
  - rewrite decide_False by (intros H; by apply H). lia.
  - rewrite decide_True by done. cbn [length]. lia.
Qed.

Lemma non_empty_count_nonneg (kvs : list (Bytes * Bytes)) : 0 <= non_empty_count kvs.
Proof. unfold non_empty_count. lia. Qed.

(** A sequence of puts: no error, the invariant is kept, and the chunks
    sent and the items left follow from the number of non-empty values. *)
Lemma put_all_spec (kvs : list (Bytes * Bytes)) :
  forall batch, batch_inv batch ->
  exists batch' acts,
    put_all batch kvs = (batch', acts, None) /\ batch_inv batch' /\
    pending batch' = (pending batch + non_empty_count kvs) mod dynamoBatchSize /\
    Z.of_nat (length (sends_of acts)) = (pending batch + non_empty_count kvs) / dynamoBatchSize /\
    Forall (fun chunk => Z.of_nat (length chunk) = dynamoBatchSize) (sends_of acts).
Proof.
  induction kvs as [|[key val] kvs IH]; intros batch Hinv.
  - exists batch, []. split; [done|]. split; [done|].
    destruct Hinv as (Hlt & _). unfold pending in *.
    change (non_empty_count []) with 0. rewrite Z.add_0_r.
    unfold dynamoBatchSize in *. cbn [sends_of omap length].
    repeat split; [| |constructor].
    + rewrite Z.mod_small; lia.
    + rewrite Z.div_small by lia. reflexivity.
  - cbn [put_all]. rewrite non_empty_count_cons.
    destruct (Z.eqb_spec (len val) 0) as [Hz|Hz].
    + rewrite Put_eq. destruct (Z.eqb_spec (len val) 0) as [_|]; [|done].
      destruct (IH batch Hinv) as (batch' & acts & -> & Hinv' & Hp & Hs & Hall).
      exists batch', acts. cbn [app]. by rewrite Z.add_0_l.
    + destruct (Put_step batch key val Hinv Hz) as (batch1 & acts1 & -> & Hinv1 & Hcase).
      destruct (IH batch1 Hinv1) as (batch' & acts & -> & Hinv' & Hp & Hs & Hall).
      exists batch', (acts1 ++ acts). split; [done|]. split; [done|].
      pose proof (non_empty_count_nonneg kvs) as Hm.
      rewrite sends_of_app, length_app.
      destruct Hcase as [(Hfull & -> & ->)|(Hless & -> & ->)].
      * rewrite sends_of_app, sends_of_spawned. cbn [app sends_of omap length].
        unfold pending in Hp, Hs. cbn [batchItems length] in Hp, Hs.
        rewrite Z.add_0_l in Hp, Hs.
        replace (pending batch + (1 + non_empty_count kvs))
          with (non_empty_count kvs + 1 * dynamoBatchSize) by lia.
        rewrite Z_mod_plus_full, Z_div_plus_full by done.
        change (sends_of [WgAdd; Send (batchItems batch ++ [put_request key val])])
          with [batchItems batch ++ [put_request key val]].
        cbn [length app].
        repeat split; [done | lia |].
        constructor; [|done]. rewrite length_app. unfold pending in Hfull. simpl. lia.
      * rewrite sends_of_spawned. cbn [app length].
        assert (Hp1 : pending (mkBatch (batchItems batch ++ [put_request key val])
                                       (size batch + len (stored_val key val)))
                      = pending batch + 1).
        { unfold pending. cbn [batchItems]. rewrite length_app. simpl. lia. }
        rewrite Hp1 in Hp, Hs.
        replace (pending batch + (1 + non_empty_count kvs))
          with (pending batch + 1 + non_empty_count kvs) by lia.
        by repeat split.
Qed.

(** [Write] on a batch whose size counter is zero returns at once, without
    waiting. *)
Lemma Write_size_zero (fuel : nat) (batch : dynamoBatch) :
  size batch = 0 -> dynamoBatch_Write fuel batch = Some (batch, [], None).
Proof. intros Hz. unfold dynamoBatch_Write. by rewrite Hz. Qed.

(** [Write] on at most [dynamoBatchSize] pending items sends them as one
    request and waits. *)
Lemma Write_one_chunk (fuel : nat) (batch : dynamoBatch) :
  size batch ≠ 0 -> 0 < pending batch <= dynamoBatchSize ->
  dynamoBatch_Write (S (S fuel)) batch
  = Some (batch, [WgAdd; Send (batchItems batch); WgWait], None).
Proof.
  intros Hsz [Hpos Hle]. unfold dynamoBatch_Write, pending in *.
  destruct (Z.eqb_spec (size batch) 0) as [|_]; [done|].
  cbn [Write_loop].
  destruct (Z.gtb_spec (Z.of_nat (length (batchItems batch))) 0) as [_|]; [|lia].
  destruct (Z.gtb_spec (Z.of_nat (length (batchItems batch))) dynamoBatchSize) as [|_]; [lia|].
  rewrite Z.sub_diag. cbn. by destruct batch.
Qed.

(** The loop of [Write] comes to an end. *)
Lemma Write_loop_total (fuel : nat) :
  forall items, (length items < fuel)%nat ->
    is_Some (Write_loop fuel items (Z.of_nat (length items))).
Proof.
  induction fuel as [|fuel IH]; intros items Hlt; [lia|].
  cbn [Write_loop].
  destruct (Z.gtb_spec (Z.of_nat (length items)) 0) as [Hpos|]; [|by eexists].
  destruct (Z.gtb_spec (Z.of_nat (length items)) dynamoBatchSize) as [Hbig|Hsmall].
  - unfold dynamoBatchSize in *.
    assert (Hdrop : Z.of_nat (length items) - Z.of_nat (length (take (Z.to_nat 25) items))
                    = Z.of_nat (length (drop (Z.to_nat 25) items))).
    { rewrite length_take, length_drop. lia. }
    rewrite Hdrop.
    destruct (IH (drop (Z.to_nat 25) items)) as [[final acts] ->]; [|by eexists].
    rewrite length_drop. lia.
  - rewrite Z.sub_diag. destruct fuel as [|fuel]; [lia|]. by eexists.
Qed.

Lemma Write_total (batch : dynamoBatch) :
  is_Some (dynamoBatch_Write (S (length (batchItems batch))) batch).
Proof.
  unfold dynamoBatch_Write. destruct (size batch =? 0); [by eexists|].
  destruct (Write_loop_total (S (length (batchItems batch))) (batchItems batch))
    as [[final acts] ->]; [lia | by eexists].
Qed.

(** With one item more than [dynamoBatchSize], [Write] sends the last item
    twice and the first [dynamoBatchSize] items never. *)
Lemma Write_sends_remaining_buffer (fuel : nat) (chunk : list WriteRequest) (x : WriteRequest)
    (sz : Z) :
  Z.of_nat (length chunk) = dynamoBatchSize -> sz ≠ 0 ->
  dynamoBatch_Write (S (S (S fuel))) (mkBatch (chunk ++ [x]) sz)
  = Some (mkBatch [x] sz, [WgAdd; Send [x]; WgAdd; Send [x]; WgWait], None).
Proof.
  intros Hlen Hsz. unfold dynamoBatch_Write. cbn [size batchItems].
  destruct (Z.eqb_spec sz 0) as [|_]; [done|].
  unfold dynamoBatchSize in *.
  assert (Hn : length chunk = 25%nat) by lia.
  assert (Htake : take 25 (chunk ++ [x]) = chunk) by (rewrite <- Hn; apply take_app_length).
  assert (Hdrop : drop 25 (chunk ++ [x]) = [x]) by (rewrite <- Hn; apply drop_app_length).
  cbn [Write_loop]. rewrite length_app, Hn. cbn [length Nat.add].
  change (Z.of_nat 26 >? 0) with true. change (Z.of_nat 26 >? dynamoBatchSize) with true.
  cbn iota. unfold dynamoBatchSize. change (Z.to_nat 25) with 25%nat.
  rewrite Htake, Hdrop, Hn. reflexivity.
Qed.

(** The branch of [Write] for more than [dynamoBatchSize] items, on a batch
    value holding 26 items.  No sequence of [Put], [Write] and [Reset] leads
    to such a batch ([batch_after_inv] below), so the branch is never taken;
    taken, it would cut the first 25 items off [batch.batchItems] and send
    what is left of it, the 26th item, in both rounds of the loop. *)
Remark Write_sends_buffer_not_slice :
  twenty_six = (numbered_request <$> seq 0 25) ++ [numbered_request 25] /\
  (forall fuel,
     dynamoBatch_Write (S (S (S fuel))) (mkBatch twenty_six 26)
     = Some (mkBatch [numbered_request 25] 26,
             [WgAdd; Send [numbered_request 25]; WgAdd; Send [numbered_request 25]; WgWait],
             None)) /\
  numbered_request 0 ∈ twenty_six /\ numbered_request 0 ≠ numbered_request 25.
Proof.
  split; [reflexivity|]. split; [|split].
  - intros fuel.
    change twenty_six with ((numbered_request <$> seq 0 25) ++ [numbered_request 25]).
    apply Write_sends_remaining_buffer; [|done]. by rewrite length_fmap, length_seq.
  - apply list_elem_of_fmap. exists 0%nat. split; [done|]. apply elem_of_seq. lia.
  - intros Heq. apply (f_equal (fun r => PutRequest r !! "Key")) in Heq.
    vm_compute in Heq. discriminate.
Qed.

(** C3, on the code: 25 puts of small pairs, then [Write].  The 25th put
    sends the chunk, registers it on the completion group and resets the size
    counter; [Write] then finds the size counter at zero and returns without
    [Wait], so in the run where no worker has signalled yet it returns with
    one unit outstanding. *)
Theorem Write_returns_before_chunk_is_acknowledged :
  exists chunk,
    put_all dynamoDB_NewBatch (numbered_puts 25) = (mkBatch [] 0, [WgAdd; Send chunk], None) /\
    chunk = numbered_request <$> seq 0 25 /\
    length chunk = 25%nat /\
    (forall fuel, dynamoBatch_Write fuel (mkBatch [] 0) = Some (mkBatch [] 0, [], None)) /\
    wg_run 0 (Act <$> ([WgAdd; Send chunk] ++ [])) = Some 1.
Proof.
  exists (numbered_request <$> seq 0 25).
  split; [by vm_compute|]. split; [done|]. split; [reflexivity|].
  split; [|reflexivity]. intros fuel. by apply Write_size_zero.
Qed.

(** On the batches [Put] leaves behind, [Write] changes nothing. *)
Lemma Write_inv (fuel : nat) (batch batch' : dynamoBatch) (acts : list action)
    (err : option error) :
  batch_inv batch -> dynamoBatch_Write (S (S fuel)) batch = Some (batch', acts, err) ->
  batch' = batch.
Proof.
  intros (Hlt & Hsz & Hiff) Hw. destruct (Z.eq_dec (size batch) 0) as [Hz|Hz].
  - rewrite (Write_size_zero _ batch Hz) in Hw. by simplify_eq.
  - rewrite Write_one_chunk in Hw; [by simplify_eq | done |].
    unfold pending in *. split; [|lia].
    destruct (batchItems batch); [by destruct Hz; apply Hiff | simpl; lia].
Qed.

Lemma apply_op_inv (batch : dynamoBatch) (op : batch_op) :
  batch_inv batch -> batch_inv (apply_op batch op).
Proof.
  intros Hinv. destruct op as [key val| |]; cbn [apply_op].
  - destruct (Z.eq_dec (len val) 0) as [Hz|Hz].
    + rewrite Put_eq. by destruct (Z.eqb_spec (len val) 0).
    + by destruct (Put_step batch key val Hinv Hz) as (batch' & acts & -> & Hinv' & _).
  - destruct (dynamoBatch_Write (S (length (batchItems batch))) batch)
      as [[[batch' acts] err]|] eqn:Hw; [|done].
    destruct (length (batchItems batch)) as [|n] eqn:Hn.
    + pose proof Hinv as (_ & _ & Hiff). unfold dynamoBatch_Write in Hw.
      rewrite (proj2 Hiff) in Hw by (by destruct (batchItems batch)).
      by simplify_eq/=.
    + by rewrite (Write_inv n batch batch' acts err Hinv Hw).
  - apply Reset_inv.
Qed.

Lemma batch_after_inv (ops : list batch_op) : batch_inv (batch_after ops).
Proof.
  unfold batch_after. generalize NewBatch_inv. generalize dynamoDB_NewBatch.
  induction ops as [|op ops IH]; intros batch Hinv; [done|].
  cbn [fold_left]. apply IH. by apply apply_op_inv.
Qed.


(** C10: on every batch reached from [NewBatch] by puts, writes and resets,
    a put succeeds and leaves strictly fewer than BATCH_MAX = 25 items
    pending.  When the appended item is the 25th, the chunk of these 25 items
    is sent within that put and the items and the size counter are reset to
    zero; otherwise nothing is sent and the item is appended. *)
Theorem Put_keeps_pending_below_batch_size (ops : list batch_op) (key val : Bytes) :
  let batch := batch_after ops in
  let r := dynamoBatch_Put batch key val in
  r.2 = None /\ pending r.1.1 < dynamoBatchSize /\
  (len val ≠ 0 -> pending batch + 1 = dynamoBatchSize ->
     r.1.1 = mkBatch [] 0 /\
     r.1.2 = put_spawned key val ++ [WgAdd; Send (batchItems batch ++ [put_request key val])] /\
     Z.of_nat (length (batchItems batch ++ [put_request key val])) = dynamoBatchSize) /\
  (len val ≠ 0 -> pending batch + 1 < dynamoBatchSize ->
     sends_of r.1.2 = [] /\ batchItems r.1.1 = batchItems batch ++ [put_request key val]) /\
  (len val = 0 -> r = (batch, [], None)).
Proof.
  intros batch r. subst r. pose proof (batch_after_inv ops) as Hinv. fold batch in Hinv.
  destruct (Z.eq_dec (len val) 0) as [Hz|Hz].
  - rewrite Put_eq. destruct (Z.eqb_spec (len val) 0) as [_|]; [|done].
    destruct Hinv as (Hlt & _). by repeat split.
  - destruct (Put_step batch key val Hinv Hz) as (batch' & acts & -> & (Hlt & _) & Hcase).
    cbn [fst snd]. split; [done|]. split; [done|].
    destruct Hcase as [(Hfull & -> & ->)|(Hless & -> & ->)].
    + split; [|split]; [|intros _ ?; lia|done].
      intros _ _. split; [done|]. split; [done|].
      rewrite length_app. unfold pending in Hfull. simpl. lia.
    + split; [|split]; [intros _ ?; lia| |done].
      intros _ _. split; [apply sends_of_spawned | done].
Qed.

(** The requests one batch submits, over its puts and the [Write] after
    them: as many as chunks of [dynamoBatchSize] are needed for the
    non-empty values, each holding between 1 and [dynamoBatchSize] items. *)
Lemma submitted_requests_count (kvs : list (Bytes * Bytes)) (fuel : nat) :
  exists batch acts acts',
    put_all dynamoDB_NewBatch kvs = (batch, acts, None) /\
    dynamoBatch_Write (S (S fuel)) batch = Some (batch, acts', None) /\
    Z.of_nat (length (sends_of (acts ++ acts')))
      = (non_empty_count kvs + (dynamoBatchSize - 1)) / dynamoBatchSize /\
    Forall (fun chunk => 1 <= Z.of_nat (length chunk) <= dynamoBatchSize)
           (sends_of (acts ++ acts')).
Proof.
  destruct (put_all_spec kvs dynamoDB_NewBatch NewBatch_inv)
    as (batch & acts & Hput & Hinv & Hp & Hs & Hall).
  change (pending dynamoDB_NewBatch) with 0 in Hp, Hs. rewrite Z.add_0_l in Hp, Hs.
  pose proof (non_empty_count_nonneg kvs) as Hm.
  assert (Hall' : Forall (fun chunk => 1 <= Z.of_nat (length chunk) <= dynamoBatchSize)
                         (sends_of acts)).
  { eapply Forall_impl; [exact Hall|]. unfold dynamoBatchSize. intros chunk Hc. cbn beta in Hc. lia. }
  destruct Hinv as (Hlt & Hsz & Hiff).
  destruct (Z.eq_dec (size batch) 0) as [Hz|Hz].
  - exists batch, acts, []. split; [done|]. split; [by apply Write_size_zero|].
    rewrite app_nil_r. split; [|done].
    assert (Hp0 : pending batch = 0) by (unfold pending; by rewrite (proj1 Hiff Hz)).
    rewrite Hs. unfold dynamoBatchSize in *. Z.to_euclidean_division_equations. lia.
  - assert (Hpos : 0 < pending batch).
    { unfold pending. destruct (batchItems batch); [by destruct Hz; apply Hiff | simpl; lia]. }
    exists batch, acts, [WgAdd; Send (batchItems batch); WgWait].
    split; [done|]. split; [apply Write_one_chunk; [done|lia]|].
    rewrite sends_of_app, length_app.
    change (sends_of [WgAdd; Send (batchItems batch); WgWait]) with [batchItems batch].
    split.
    + cbn [length]. unfold dynamoBatchSize in *. Z.to_euclidean_division_equations. lia.
    + apply Forall_app. split; [done|]. constructor; [|done]. fold (pending batch). lia.
Qed.

(** ** The completion group *)

Lemma wg_run_app (run1 run2 : list step) (c : Z) :
  wg_run c (run1 ++ run2) = wg_run c run1 ≫= fun c1 => wg_run c1 run2.
Proof.
  revert c. induction run1 as [|[[]|] run1 IH]; intros c; cbn [wg_run app]; try done.
  - by destruct (c =? 0).
  - by destruct (c <=? 0).
Qed.

(** A run that gets past the [Wait] of [Write] ends with no unit
    outstanding. *)
Lemma wg_run_ends_with_Wait (run : list step) (c c' : Z) :
  wg_run c (run ++ [Act WgWait]) = Some c' -> c' = 0.
Proof.
  rewrite wg_run_app. destruct (wg_run c run) as [c1|]; [|done]. cbn.
  destruct (Z.eqb_spec c1 0); [|done]. intros. by simplify_eq.
Qed.

(** [Write] waits whenever the size counter is not zero. *)
Lemma Write_waits_unless_size_zero (fuel : nat) (batch batch' : dynamoBatch)
    (acts : list action) (err : option error) :
  size batch ≠ 0 -> dynamoBatch_Write fuel batch = Some (batch', acts, err) ->
  last acts = Some WgWait.
Proof.
  intros Hsz. unfold dynamoBatch_Write. destruct (Z.eqb_spec (size batch) 0); [done|].
  destruct (Write_loop _ _ _) as [[final acts0]|]; [|done].
  intros. simplify_eq. apply last_snoc.
Qed.

(** ** Scenarios of the specification *)

(** Sixty small pairs through one batch: two chunks of 25 leave during the
    puts, [Write] sends the last 10. *)
Example sixty_puts_three_requests :
  let r := put_all dynamoDB_NewBatch (numbered_puts 60) in
  r.2 = None /\
  length <$> sends_of r.1.2 = [25; 25]%nat /\
  (fun w => (length <$> sends_of w.1.2, last w.1.2)) <$> dynamoBatch_Write 2 r.1.1
    = Some ([10]%nat, Some WgWait).
Proof. vm_compute. by repeat split. Qed.

(** A bulk write that leaves the last 13 of 25 items unprocessed: the worker
    sends these 13 again, and signals the group after the second answer. *)
Example retry_on_unprocessed :
  let items := numbered_request <$> seq 0 25 in
  worker_handle [(Some (mkBatchWriteItemOutput {[ "table" := drop 12 items ]}), None);
                 (Some (mkBatchWriteItemOutput ∅), None)]
                "table" 3 ∅ items
  = Completed 0
      [EvBatchWriteItem {[ "table" := items ]}
                        (Some (mkBatchWriteItemOutput {[ "table" := drop 12 items ]}), None);
       EvBatchWriteItem {[ "table" := drop 12 items ]} (Some (mkBatchWriteItemOutput ∅), None);
       EvDone].
Proof. by vm_compute. Qed.

(** Errors raise the failure counter, which a partial success in between
    does not reset; past [dynamoMaxRetry] the worker sleeps before it
    retries. *)
Example sleep_after_max_retry :
  let failed := (Some (mkBatchWriteItemOutput ∅), Some "throttled") in
  let partial := (Some (mkBatchWriteItemOutput {[ "table" := [numbered_request 0] ]}), None) in
  let o := worker_handle (replicate 5 failed ++ [partial; failed]) "table" 0 ∅ [] in
  warns_of (trace_of o) = [1; 2; 3; 4; 5; 6] /\
  last (trace_of o) = Some EvSleep /\
  o = Retrying 6 (trace_of o).
Proof. by vm_compute. Qed.

(** ** The upload goroutine *)

(** With the bucket answering, the blob is written at the first attempt. *)
Lemma upload_task_ok (fuel : nat) (w : World) (it : item) (failCnt : Z) :
  s3_put_fault w = None ->
  upload_task (S fuel) w it failCnt
  = Some (set_bucket w (<[hexutil_Encode (content (item_key it)) := content (item_val it)]>
                          (bucket w)), failCnt).
Proof. intros Hf. cbn [upload_task]. by rewrite (s3FileDB_write_ok w it Hf). Qed.

(** With the bucket failing for good, the goroutine retries without end and
    never signals the group. *)
Lemma upload_task_retries (fuel : nat) (w : World) (it : item) (e : error) :
  s3_put_fault w = Some e -> forall failCnt, upload_task fuel w it failCnt = None.
Proof.
  intros Hf. induction fuel as [|fuel IH]; intros failCnt; [done|].
  cbn [upload_task]. rewrite (s3FileDB_write_fault w it e Hf). apply IH.
Qed.

(** ** A key too long for the sentinel row *)

Lemma Put_oversize_key_never_returns_witness :
  dynamoDB_Put 1000 empty_world (Some (replicate (Z.to_nat 409600) Byte.x6b)) (bytes_of "v") = None.
Proof.
  apply (Put_oversize_key_never_returns 1000 empty_world
           (Some (replicate (Z.to_nat 409600) Byte.x6b)) (bytes_of "v")).
  - reflexivity.
  - rewrite len_replicate by lia. lia.
  - rewrite len_replicate by lia. vm_compute. reflexivity.
  - rewrite len_replicate by lia. vm_compute. reflexivity.
Defined.

(** * Further properties *)

(** ** What [Put] keeps *)

(** [Put] changes rows and objects only: the faults and the streaming of
    the services stay as they are. *)
Lemma Put_services (fuel : nat) :
  forall w key val w' err,
    dynamoDB_Put fuel w key val = Some (w', err) ->
    ddb_put_fault w' = ddb_put_fault w /\ ddb_get_fault w' = ddb_get_fault w /\
    s3_put_fault w' = s3_put_fault w /\ s3_get_fault w' = s3_get_fault w /\
    s3_read_script w' = s3_read_script w.
Proof.
  induction fuel as [|fuel IH]; intros w key val w' err Hput; [done|].
  cbn [dynamoDB_Put] in Hput.
  destruct (len key =? 0); [by simplify_eq|].
  destruct (len key + len val >? dynamoWriteSizeLimit).
  - unfold s3FileDB_write, PutObject in Hput.
    destruct (s3_put_fault w) as [e|] eqn:Hf; [by simplify_eq|].
    apply IH in Hput. cbn in Hput. by rewrite Hf in Hput.
  - rewrite MarshalMap_ok in Hput. unfold PutItem in Hput.
    destruct (ddb_put_fault w) as [e|] eqn:Hf; [by simplify_eq|].
    destruct ((MarshalMap (mkDynamoData key val)).1 !! "Key") as [[b| |b]|];
      simplify_eq; by rewrite ?Hf.
Qed.

(** The object names are distinct for distinct keys. *)
Lemma hexdigit_inj (a b : N) : (a < 16)%N -> (b < 16)%N -> hexdigit a = hexdigit b -> a = b.
Proof.
  intros Ha Hb Heq. apply (f_equal Ascii.N_of_ascii) in Heq. unfold hexdigit in Heq.
  rewrite !Ascii.N_ascii_embedding in Heq
    by (destruct (a <? 10)%N, (b <? 10)%N; lia).
  destruct (N.ltb_spec a 10), (N.ltb_spec b 10); lia.
Qed.

Lemma Byte_to_N_inj (x y : byte) : Byte.to_N x = Byte.to_N y -> x = y.
Proof.
  intros Heq. pose proof (Byte.of_to_N x) as Hx. rewrite Heq, Byte.of_to_N in Hx.
  by simplify_eq.
Qed.

Lemma hexutil_Encode_inj (a b : list byte) : hexutil_Encode a = hexutil_Encode b -> a = b.
Proof.
  revert b. induction a as [|x a IH]; intros [|y b] Heq; try done.
  cbn [hexutil_Encode] in Heq. injection Heq as Hhi Hlo Hrest.
  pose proof (Byte.to_N_bounded x). pose proof (Byte.to_N_bounded y).
  apply hexdigit_inj in Hhi;
    [|apply N.Div0.div_lt_upper_bound; lia|apply N.Div0.div_lt_upper_bound; lia].
  apply hexdigit_inj in Hlo; [|apply N.mod_lt; lia|apply N.mod_lt; lia].
  f_equal; [|by apply IH]. apply Byte_to_N_inj.
  rewrite (N.div_mod (Byte.to_N x) 16), (N.div_mod (Byte.to_N y) 16) by lia. lia.
Qed.

(** [Put] on a key touches the row and the object of that key only. *)
Lemma Put_effect (fuel : nat) :
  forall w key val w' err,
    dynamoDB_Put fuel w key val = Some (w', err) ->
    (forall k0, k0 ≠ content key -> table w' !! k0 = table w !! k0) /\
    (forall name, name ≠ hexutil_Encode (content key) -> bucket w' !! name = bucket w !! name).
Proof.
  induction fuel as [|fuel IH]; intros w key val w' err Hput; [done|].
  cbn [dynamoDB_Put] in Hput.
  destruct (Z.eqb_spec (len key) 0) as [|Hk]; [by simplify_eq|].
  destruct (len key + len val >? dynamoWriteSizeLimit).
  - unfold s3FileDB_write, PutObject in Hput.
    destruct (s3_put_fault w) as [e|] eqn:Hf; [by simplify_eq|].
    apply IH in Hput as [Ht Hb]. cbn in Ht, Hb. split; [done|].
    intros name Hne. rewrite (Hb name Hne). by apply lookup_insert_ne.
  - rewrite MarshalMap_ok in Hput. unfold PutItem in Hput.
    destruct (ddb_put_fault w) as [e|] eqn:Hf; [by simplify_eq|].
    rewrite MarshalMap_Key in Hput. cbn [Key] in Hput.
    rewrite (encodeBytes_nonempty key Hk) in Hput. simplify_eq. cbn. split; [|done].
    intros k0 Hne. by apply lookup_insert_ne.
Qed.

(** What [read] returns depends on the object of the key and on the bucket's
    state of service only. *)
Lemma read_agree (fuel : nat) (w1 w2 : World) (key : Bytes) :
  s3_get_fault w1 = s3_get_fault w2 -> s3_read_script w1 = s3_read_script w2 ->
  bucket w1 !! hexutil_Encode (content key) = bucket w2 !! hexutil_Encode (content key) ->
  s3FileDB_read fuel w1 key = s3FileDB_read fuel w2 key.
Proof. intros Hf Hs Hb. unfold s3FileDB_read, GetObject. by rewrite Hf, Hs, Hb. Qed.

Lemma Get_agree (fuel : nat) (w1 w2 : World) (key : Bytes) :
  ddb_get_fault w1 = ddb_get_fault w2 ->
  table w1 !! content key = table w2 !! content key ->
  s3_get_fault w1 = s3_get_fault w2 -> s3_read_script w1 = s3_read_script w2 ->
  bucket w1 !! hexutil_Encode (content key) = bucket w2 !! hexutil_Encode (content key) ->
  dynamoDB_Get fuel w1 key = dynamoDB_Get fuel w2 key.
Proof.
  intros Hf Ht Hg Hs Hb. unfold dynamoDB_Get, GetItem. rewrite Hf, Ht.
  by rewrite (read_agree fuel w1 w2 key Hg Hs Hb).
Qed.

(** X3: a [Put] on one key, whatever its outcome, leaves what [Get] and [Has]
    return for every other key as it was. *)
Theorem Put_leaves_other_keys (fuel fuel' : nat) (w : World) (key val key' : Bytes) :
  content key ≠ content key' ->
  match dynamoDB_Put fuel w key val with
  | Some (w', _) =>
      dynamoDB_Get fuel' w' key' = dynamoDB_Get fuel' w key' /\
      dynamoDB_Has fuel' w' key' = dynamoDB_Has fuel' w key'
  | None => True
  end.
Proof.
  intros Hne. destruct (dynamoDB_Put fuel w key val) as [[w' err]|] eqn:Hput; [|done].
  destruct (Put_services fuel w key val w' err Hput) as (_ & Hg & _ & Hs3 & Hscript).
  destruct (Put_effect fuel w key val w' err Hput) as [Ht Hb].
  assert (Hget : dynamoDB_Get fuel' w' key' = dynamoDB_Get fuel' w key').
  { apply Get_agree; try done.
    - apply Ht. congruence.
    - apply Hb. intros Heq. by apply hexutil_Encode_inj in Heq. }
  split; [done|]. unfold dynamoDB_Has. by rewrite Hget.
Qed.

Lemma Put_leaves_other_keys_witness :
  match dynamoDB_Put 2 empty_world (bytes_of "big") big_value with
  | Some (w', _) =>
      dynamoDB_Get 2 w' (bytes_of "alpha") = dynamoDB_Get 2 empty_world (bytes_of "alpha") /\
      dynamoDB_Has 2 w' (bytes_of "alpha") = dynamoDB_Has 2 empty_world (bytes_of "alpha")
  | None => True
  end.
Proof.
  apply (Put_leaves_other_keys 2 2 empty_world (bytes_of "big") big_value (bytes_of "alpha")).
  vm_compute. discriminate.
Defined.

(** ** Writing twice, writing large, deleting *)

(** The row a small [Put] leaves is read back as the value. *)
Lemma Get_after_small_Put (fuel : nat) (w : World) (k v : Bytes) :
  ddb_get_fault w = None -> len k ≠ 0 -> content v ≠ content overSizedDataPrefix ->
  dynamoDB_Get fuel (set_table w (<[content k := (MarshalMap (mkDynamoData k v)).1]> (table w))) k
  = Some (Some (content v), None).
Proof.
  intros Hget Hk Hv.
  set (row := (MarshalMap (mkDynamoData k v)).1).
  set (w' := set_table w (<[content k := row]> (table w))).
  assert (Hrow : table w' !! content k = Some row) by apply lookup_insert_eq.
  rewrite (Get_row fuel w' k row _ Hget Hrow (UnmarshalMap_MarshalMap k v Hk)).
  simpl. destruct (Z.eqb_spec (len v) 0) as [Hz|Hz].
  - by rewrite (len_zero_content v Hz).
  - unfold bytes_Equal. simpl. by rewrite bool_decide_eq_false_2.
Qed.

(** An oversize [Put] with both stores answering. *)
Lemma Put_oversize_ok (fuel : nat) (w : World) (k v : Bytes) :
  s3_put_fault w = None -> ddb_put_fault w = None ->
  len k ≠ 0 -> len k + len overSizedDataPrefix <= dynamoWriteSizeLimit ->
  len k + len v > dynamoWriteSizeLimit ->
  dynamoDB_Put (S (S fuel)) w k v
  = Some (set_table (set_bucket w (<[hexutil_Encode (content k) := content v]> (bucket w)))
                    (<[content k := sentinel_row k]> (table w)), None).
Proof.
  intros Hs3 Hddb Hk Hstub Hsz.
  rewrite (Put_oversize_step (S fuel) w k v Hk Hsz), (s3FileDB_write_ok w (mkItem k v) Hs3).
  cbn [item_key item_val]. by rewrite Put_small.
Qed.

(** X4: the last write wins.  After any first [Put] on a non-empty key,
    whatever it stored and even if it failed, a second [Put] of a value that
    fits a row and is not the sentinel succeeds, and [Get] then returns that
    second value (the table store answering). *)
Theorem Put_last_writer_wins (fuel : nat) (w : World) (k v1 v2 : Bytes) :
  ddb_put_fault w = None -> ddb_get_fault w = None ->
  len k ≠ 0 -> len k + len v2 <= dynamoWriteSizeLimit ->
  content v2 ≠ content overSizedDataPrefix ->
  match dynamoDB_Put fuel w k v1 with
  | Some (w1, _) =>
      exists w2, (forall fuel2, dynamoDB_Put (S fuel2) w1 k v2 = Some (w2, None)) /\
                 (forall fuel', dynamoDB_Get fuel' w2 k = Some (Some (content v2), None))
  | None => True
  end.
Proof.
  intros Hput Hget Hk Hsz Hv.
  destruct (dynamoDB_Put fuel w k v1) as [[w1 err]|] eqn:H1; [|done].
  destruct (Put_services fuel w k v1 w1 err H1) as (Hp1 & Hg1 & _).
  rewrite Hput in Hp1. rewrite Hget in Hg1.
  eexists. split.
  - intros fuel2. by apply Put_small.
  - intros fuel'. by apply Get_after_small_Put.
Qed.

Lemma Put_last_writer_wins_witness :
  match dynamoDB_Put 2 empty_world (bytes_of "big") big_value with
  | Some (w1, _) =>
      exists w2, (forall fuel2, dynamoDB_Put (S fuel2) w1 (bytes_of "big") (bytes_of "beta")
                                = Some (w2, None)) /\
                 (forall fuel', dynamoDB_Get fuel' w2 (bytes_of "big")
                                = Some (Some (content (bytes_of "beta")), None))
  | None => True
  end.
Proof.
  apply (Put_last_writer_wins 2 empty_world (bytes_of "big") big_value (bytes_of "beta"));
    [reflexivity | reflexivity | vm_compute; discriminate | vm_compute; discriminate
    | vm_compute; discriminate].
Defined.

(** X5: overwriting an oversize value with one that fits a row leaves the
    blob of the first write in the bucket: [Get] returns the new value and
    the old body is still stored under the key's name. *)
Theorem overwrite_leaves_blob (w : World) (k big small : Bytes) :
  s3_put_fault w = None -> ddb_put_fault w = None -> ddb_get_fault w = None ->
  len k ≠ 0 -> len k + len overSizedDataPrefix <= dynamoWriteSizeLimit ->
  len k + len big > dynamoWriteSizeLimit ->
  len k + len small <= dynamoWriteSizeLimit ->
  content small ≠ content overSizedDataPrefix ->
  exists w1 w2,
    (forall fuel, dynamoDB_Put (S (S fuel)) w k big = Some (w1, None)) /\
    (forall fuel, dynamoDB_Put (S fuel) w1 k small = Some (w2, None)) /\
    (forall fuel, dynamoDB_Get fuel w2 k = Some (Some (content small), None)) /\
    bucket w2 !! hexutil_Encode (content k) = Some (content big).
Proof.
  intros Hs3 Hddb Hget Hk Hstub Hbig Hsmall Hv.
  eexists _, _. split; [intros fuel; by apply Put_oversize_ok|].
  split; [intros fuel; by apply Put_small|].
  split; [intros fuel; by apply Get_after_small_Put|].
  cbn. apply lookup_insert_eq.
Qed.

Lemma overwrite_leaves_blob_witness :
  exists w1 w2,
    (forall fuel, dynamoDB_Put (S (S fuel)) empty_world (bytes_of "big") big_value
                  = Some (w1, None)) /\
    (forall fuel, dynamoDB_Put (S fuel) w1 (bytes_of "big") (bytes_of "beta") = Some (w2, None)) /\
    (forall fuel, dynamoDB_Get fuel w2 (bytes_of "big")
                  = Some (Some (content (bytes_of "beta")), None)) /\
    bucket w2 !! hexutil_Encode (content (bytes_of "big")) = Some (content big_value).
Proof.
  apply (overwrite_leaves_blob empty_world (bytes_of "big") big_value (bytes_of "beta"));
    [reflexivity | reflexivity | reflexivity | vm_compute; discriminate
    | vm_compute; discriminate | rewrite len_big_value; vm_compute; reflexivity
    | vm_compute; discriminate | vm_compute; discriminate].
Defined.

(** X6: an oversize value comes back.  With both stores answering and the
    body delivered by the first [Read], [Get] after an oversize [Put] returns
    the value that was put. *)
Theorem oversize_round_trip (w : World) (k v : Bytes) :
  healthy w -> s3_read_script w = [] ->
  len k ≠ 0 -> len k + len overSizedDataPrefix <= dynamoWriteSizeLimit ->
  len k + len v > dynamoWriteSizeLimit ->
  exists w',
    (forall fuel, dynamoDB_Put (S (S fuel)) w k v = Some (w', None)) /\
    (forall fuel, dynamoDB_Get (S (S fuel)) w' k = Some (Some (content v), None)).
Proof.
  intros (Hddb & Hget & Hs3 & Hs3g) Hscript Hk Hstub Hsz.
  eexists. split; [intros fuel; by apply Put_oversize_ok|].
  intros fuel.
  set (w1 := set_bucket w (<[hexutil_Encode (content k) := content v]> (bucket w))).
  set (w' := set_table w1 (<[content k := sentinel_row k]> (table w))).
  assert (Hrow : table w' !! content k = Some (sentinel_row k)) by apply lookup_insert_eq.
  rewrite (Get_row (S (S fuel)) w' k _ _ Hget Hrow
             (UnmarshalMap_MarshalMap k overSizedDataPrefix Hk)).
  cbn [Val]. change (len overSizedDataPrefix =? 0) with false. cbn iota.
  unfold bytes_Equal. rewrite bool_decide_eq_true_2 by done.
  rewrite (read_returns_body_read_at_once w' k (content v)); [|done|apply lookup_insert_eq|done].
  unfold append_bytes. destruct (content v) as [|x l] eqn:Hv; [|done].
  exfalso. unfold len in Hsz, Hstub. rewrite Hv in Hsz. simpl in Hsz.
  change (Z.of_nat (length (content overSizedDataPrefix))) with 13 in Hstub. lia.
Qed.

Lemma oversize_round_trip_witness :
  exists w',
    (forall fuel, dynamoDB_Put (S (S fuel)) empty_world (bytes_of "big") big_value
                  = Some (w', None)) /\
    (forall fuel, dynamoDB_Get (S (S fuel)) w' (bytes_of "big")
                  = Some (Some (content big_value), None)).
Proof.
  apply (oversize_round_trip empty_world (bytes_of "big") big_value);
    [by repeat split | reflexivity | vm_compute; discriminate | vm_compute; discriminate
    | rewrite len_big_value; vm_compute; reflexivity].
Defined.

(** X7: an oversize [Put] is not undone when the row cannot be written: the
    error of the table store is returned, the table is as before, and the
    blob stays in the bucket although no row was written for it. *)
Theorem Put_row_failure_leaves_blob (fuel : nat) (w : World) (k v : Bytes) (e : error) :
  s3_put_fault w = None -> ddb_put_fault w = Some e ->
  len k ≠ 0 -> len k + len overSizedDataPrefix <= dynamoWriteSizeLimit ->
  len k + len v > dynamoWriteSizeLimit ->
  exists w',
    dynamoDB_Put (S (S fuel)) w k v = Some (w', Some e) /\
    table w' = table w /\
    bucket w' = <[hexutil_Encode (content k) := content v]> (bucket w).
Proof.
  intros Hs3 Hddb Hk Hstub Hsz.
  rewrite (Put_oversize_step (S fuel) w k v Hk Hsz), (s3FileDB_write_ok w (mkItem k v) Hs3).
  cbn [item_key item_val dynamoDB_Put].
  destruct (Z.eqb_spec (len k) 0) as [|_]; [done|].
  destruct (Z.gtb_spec (len k + len overSizedDataPrefix) dynamoWriteSizeLimit) as [|_]; [lia|].
  rewrite MarshalMap_ok. unfold PutItem. cbn [ddb_put_fault set_bucket]. rewrite Hddb.
  by eexists.
Qed.

Lemma Put_row_failure_leaves_blob_witness :
  exists w',
    dynamoDB_Put 2 (mkWorld ∅ ∅ (Some "ProvisionedThroughputExceededException") None None None [])
                 (bytes_of "big") big_value
      = Some (w', Some "ProvisionedThroughputExceededException") /\
    table w' = ∅ /\
    bucket w' = <[hexutil_Encode (content (bytes_of "big")) := content big_value]> ∅.
Proof.
  apply (Put_row_failure_leaves_blob 0
           (mkWorld ∅ ∅ (Some "ProvisionedThroughputExceededException") None None None [])
           (bytes_of "big") big_value "ProvisionedThroughputExceededException");
    [reflexivity | reflexivity | vm_compute; discriminate | vm_compute; discriminate
    | rewrite len_big_value; vm_compute; reflexivity].
Defined.

(** ** dynamoDB.Delete *)

(** X8: [Delete] removes the row and nothing else.  After a delete that the
    table store answers, [Get] on the key fails with [dataNotFoundErr]
    whether or not the key had a row, and the bucket, with any overflow blob
    of the key, is as before; a delete that fails changes nothing. *)
Theorem Delete_removes_row_only (fuel : nat) (w : World) (key : Bytes) :
  ddb_get_fault w = None ->
  (let r := dynamoDB_Delete None w key in
   r.2 = None /\
   dynamoDB_Get fuel r.1 key = Some (None, Some dataNotFoundErr) /\
   dynamoDB_Has fuel r.1 key = Some (false, Some dataNotFoundErr) /\
   bucket r.1 = bucket w) /\
  (forall e, dynamoDB_Delete (Some e) w key = (w, Some e)).
Proof.
  intros Hget. split; [|done]. cbn zeta. unfold dynamoDB_Delete, DeleteItem. cbn [fst snd].
  assert (Hg : dynamoDB_Get fuel (set_table w (delete (content key) (table w))) key
               = Some (None, Some dataNotFoundErr)).
  { unfold dynamoDB_Get, GetItem. cbn [ddb_get_fault set_table table]. rewrite Hget.
    by rewrite lookup_delete_eq. }
  split; [done|]. split; [done|]. split; [|done].
  unfold dynamoDB_Has. by rewrite Hg.
Qed.

Lemma Delete_removes_row_only_witness :
  (let r := dynamoDB_Delete None (world_with_row (bytes_of "k") (sentinel_row (bytes_of "k")))
                            (bytes_of "k") in
   r.2 = None /\
   dynamoDB_Get 0 r.1 (bytes_of "k") = Some (None, Some dataNotFoundErr) /\
   dynamoDB_Has 0 r.1 (bytes_of "k") = Some (false, Some dataNotFoundErr) /\
   bucket r.1 = bucket (world_with_row (bytes_of "k") (sentinel_row (bytes_of "k")))) /\
  (forall e, dynamoDB_Delete (Some e) (world_with_row (bytes_of "k") (sentinel_row (bytes_of "k")))
                             (bytes_of "k")
             = (world_with_row (bytes_of "k") (sentinel_row (bytes_of "k")), Some e)).
Proof.
  apply (Delete_removes_row_only 0 (world_with_row (bytes_of "k") (sentinel_row (bytes_of "k")))
           (bytes_of "k")).
  reflexivity.
Defined.

(** X9: [Delete] on one key, whatever its outcome, leaves what [Get] returns
    for every other key as it was. *)
Theorem Delete_leaves_other_keys (fuel : nat) (fault : option error) (w : World)
    (key key' : Bytes) :
  content key ≠ content key' ->
  dynamoDB_Get fuel (dynamoDB_Delete fault w key).1 key' = dynamoDB_Get fuel w key'.
Proof.
  intros Hne. unfold dynamoDB_Delete, DeleteItem. destruct fault as [e|]; [done|].
  cbn [fst]. apply Get_agree; try done. cbn. by apply lookup_delete_ne.
Qed.

Lemma Delete_leaves_other_keys_witness :
  dynamoDB_Get 0 (dynamoDB_Delete None (world_with_row (bytes_of "k") (sentinel_row (bytes_of "k")))
                                  (bytes_of "other")).1 (bytes_of "k")
  = dynamoDB_Get 0 (world_with_row (bytes_of "k") (sentinel_row (bytes_of "k"))) (bytes_of "k").
Proof.
  apply (Delete_leaves_other_keys 0 None
           (world_with_row (bytes_of "k") (sentinel_row (bytes_of "k")))
           (bytes_of "other") (bytes_of "k")).
  vm_compute. discriminate.
Defined.

(** ** s3FileDB.write, read and delete together *)

(** X10: what [write] stores, [read] returns, when the bucket answers and the
    body is delivered by the first [Read]: the bytes of the value, as the nil
    slice when the value is empty.  A later [write] under the same key
    replaces the body. *)
Theorem s3_write_then_read (fuel : nat) (w : World) (key val val' : Bytes) :
  s3_put_fault w = None -> s3_get_fault w = None -> s3_read_script w = [] ->
  let w1 := (s3FileDB_write w (mkItem key val)).1 in
  let w2 := (s3FileDB_write w1 (mkItem key val')).1 in
  (s3FileDB_write w (mkItem key val)).2 = (hexutil_Encode (content key), None) /\
  s3FileDB_read (S (S fuel)) w1 key = Some (append_bytes None (content val), None) /\
  s3FileDB_read (S (S fuel)) w2 key = Some (append_bytes None (content val'), None).
Proof.
  intros Hput Hget Hscript w1 w2. subst w2 w1.
  rewrite (s3FileDB_write_ok w (mkItem key val) Hput). cbn [fst snd item_key item_val].
  rewrite s3FileDB_write_ok by done. cbn [fst item_key item_val].
  split; [done|]. split.
  - apply read_returns_body_read_at_once; [done | apply lookup_insert_eq | done].
  - apply read_returns_body_read_at_once; [done | apply lookup_insert_eq | done].
Qed.

Lemma s3_write_then_read_witness :
  let w1 := (s3FileDB_write empty_world (mkItem (bytes_of "k") (bytes_of "v"))).1 in
  let w2 := (s3FileDB_write w1 (mkItem (bytes_of "k") None)).1 in
  (s3FileDB_write empty_world (mkItem (bytes_of "k") (bytes_of "v"))).2
    = (hexutil_Encode (content (bytes_of "k")), None) /\
  s3FileDB_read 2 w1 (bytes_of "k") = Some (append_bytes None (content (bytes_of "v")), None) /\
  s3FileDB_read 2 w2 (bytes_of "k") = Some (append_bytes None (content None), None).
Proof.
  apply (s3_write_then_read 0 empty_world (bytes_of "k") (bytes_of "v") None); reflexivity.
Defined.

(** X11: [delete] removes the object and is idempotent.  After a delete the
    bucket answers, [read] on the key fails; deleting a key that has no
    object is no error and changes nothing; the table is never touched. *)
Theorem s3_delete_idempotent (fuel : nat) (w : World) (key : Bytes) :
  s3_get_fault w = None ->
  let r := s3FileDB_delete None w key in
  r.2 = None /\
  s3FileDB_read fuel r.1 key = Some (None, Some "NoSuchKey: The specified key does not exist.") /\
  s3FileDB_delete None r.1 key = (r.1, None) /\
  (bucket w !! hexutil_Encode (content key) = None -> r.1 = w) /\
  table r.1 = table w.
Proof.
  intros Hget. cbn zeta. unfold s3FileDB_delete, DeleteObject. cbn [fst snd].
  split; [done|]. split; [|split; [|split]]; [| | |done].
  - unfold s3FileDB_read, GetObject. cbn [s3_get_fault set_bucket bucket]. rewrite Hget.
    by rewrite lookup_delete_eq.
  - unfold set_bucket. cbn. f_equal. f_equal. apply delete_delete_eq.
  - intros Hnone. rewrite delete_id by done. by destruct w.
Qed.

Lemma s3_delete_idempotent_witness :
  let r := s3FileDB_delete None empty_world (bytes_of "k") in
  r.2 = None /\
  s3FileDB_read 0 r.1 (bytes_of "k")
    = Some (None, Some "NoSuchKey: The specified key does not exist.") /\
  s3FileDB_delete None r.1 (bytes_of "k") = (r.1, None) /\
  (bucket empty_world !! hexutil_Encode (content (bytes_of "k")) = None -> r.1 = empty_world) /\
  table r.1 = table empty_world.
Proof.
  apply (s3_delete_idempotent 0 empty_world (bytes_of "k")). reflexivity.
Defined.

(** ** Opening the bucket *)

Lemma hasBucket_loop_elem_of (bucketName : string) (buckets : list string) :
  hasBucket_loop bucketName buckets = true <-> bucketName ∈ buckets.
Proof.
  induction buckets as [|bucket rest IH]; cbn [hasBucket_loop].
  - split; [done | by intros ?%elem_of_nil].
  - rewrite elem_of_cons. destruct (String.eqb_spec bucketName bucket) as [->|Hne].
    + split; [by left | done].
    + rewrite IH. split; [by right | by intros [?|?]].
Qed.

(** X12: [hasBucket] answers whether the account lists a bucket of that
    name; when the listing fails it answers false and hands the error on. *)
Theorem hasBucket_finds_bucket (a : S3Account) (bucketName : string) :
  (acc_list_fault a = None ->
     s3FileDB_hasBucket a bucketName = (bool_decide (bucketName ∈ acc_buckets a), None)) /\
  (forall e, acc_list_fault a = Some e -> s3FileDB_hasBucket a bucketName = (false, Some e)).
Proof.
  unfold s3FileDB_hasBucket, ListBuckets. split.
  - intros ->. f_equal. apply eq_true_iff_eq.
    by rewrite hasBucket_loop_elem_of, bool_decide_eq_true.
  - by intros e ->.
Qed.

Lemma hasBucket_ok (a : S3Account) (bucketName : string) :
  acc_list_fault a = None ->
  s3FileDB_hasBucket a bucketName = (bool_decide (bucketName ∈ acc_buckets a), None).
Proof.
  intros Hf. unfold s3FileDB_hasBucket, ListBuckets. rewrite Hf. f_equal. apply eq_true_iff_eq.
  by rewrite hasBucket_loop_elem_of, bool_decide_eq_true.
Qed.

(** X13: with the account answering, [newS3FileDB] succeeds and the bucket
    exists afterwards: an existing bucket is left alone with the rest of the
    account, a missing one is added to it, and opening the store a second
    time changes nothing. *)
Theorem newS3FileDB_ensures_bucket (a : S3Account) (region endpoint bucketName : string) :
  acc_list_fault a = None -> acc_create_fault a = None ->
  exists a',
    newS3FileDB None a region endpoint bucketName
      = (a', (Some (mk_s3FileDB region endpoint bucketName), None)) /\
    bucketName ∈ acc_buckets a' /\
    (bucketName ∈ acc_buckets a -> a' = a) /\
    (bucketName ∉ acc_buckets a -> acc_buckets a' = acc_buckets a ++ [bucketName]) /\
    newS3FileDB None a' region endpoint bucketName
      = (a', (Some (mk_s3FileDB region endpoint bucketName), None)).
Proof.
  intros Hlist Hcreate. unfold newS3FileDB. rewrite (hasBucket_ok a bucketName Hlist).
  destruct (decide (bucketName ∈ acc_buckets a)) as [Hin|Hnot].
  - rewrite bool_decide_eq_true_2 by done. cbn [negb]. exists a.
    rewrite (hasBucket_ok a bucketName Hlist), bool_decide_eq_true_2 by done.
    by repeat split.
  - rewrite bool_decide_eq_false_2 by done. cbn [negb]. unfold CreateBucket.
    rewrite Hcreate, bool_decide_eq_false_2 by done.
    eexists. split; [done|]. cbn [acc_buckets].
    assert (Hin : bucketName ∈ acc_buckets a ++ [bucketName]).
    { apply elem_of_app. right. by apply list_elem_of_singleton. }
    split; [done|]. split; [done|]. split; [done|].
    rewrite hasBucket_ok by done. cbn [acc_buckets]. by rewrite bool_decide_eq_true_2.
Qed.

Lemma newS3FileDB_ensures_bucket_witness :
  exists a',
    newS3FileDB None (mkS3Account ["logs"] None None) "ap-northeast-2"
                "https://s3.ap-northeast-2.amazonaws.com" "dynamo-test-bucket"
      = (a', (Some (mk_s3FileDB "ap-northeast-2" "https://s3.ap-northeast-2.amazonaws.com"
                                "dynamo-test-bucket"), None)) /\
    "dynamo-test-bucket" ∈ acc_buckets a' /\
    ("dynamo-test-bucket" ∈ acc_buckets (mkS3Account ["logs"] None None) ->
       a' = mkS3Account ["logs"] None None) /\
    ("dynamo-test-bucket" ∉ acc_buckets (mkS3Account ["logs"] None None) ->
       acc_buckets a' = acc_buckets (mkS3Account ["logs"] None None) ++ ["dynamo-test-bucket"]) /\
    newS3FileDB None a' "ap-northeast-2" "https://s3.ap-northeast-2.amazonaws.com"
                "dynamo-test-bucket"
      = (a', (Some (mk_s3FileDB "ap-northeast-2" "https://s3.ap-northeast-2.amazonaws.com"
                                "dynamo-test-bucket"), None)).
Proof.
  apply (newS3FileDB_ensures_bucket (mkS3Account ["logs"] None None) "ap-northeast-2"
           "https://s3.ap-northeast-2.amazonaws.com" "dynamo-test-bucket"); reflexivity.
Defined.

(** Whenever [newS3FileDB] returns without an error, the bucket exists. *)
Lemma newS3FileDB_bucket (session : option error) (a a' : S3Account)
    (region endpoint bucketName : string) (db : option s3FileDB) :
  newS3FileDB session a region endpoint bucketName = (a', (db, None)) ->
  bucketName ∈ acc_buckets a'.
Proof.
  unfold newS3FileDB. destruct session; [done|].
  unfold s3FileDB_hasBucket, ListBuckets. destruct (acc_list_fault a); [done|].
  destruct (hasBucket_loop bucketName (acc_buckets a)) eqn:Hhas; cbn [negb].
  - intros. simplify_eq. by apply hasBucket_loop_elem_of.
  - unfold CreateBucket. destruct (acc_create_fault a); [done|].
    case_bool_decide; [done|]. intros. simplify_eq. cbn.
    apply elem_of_app. right. by apply list_elem_of_singleton.
Qed.

(** ** Opening the table *)

Lemma init_after_after (a b : list init_event) (o : init_outcome) :
  init_after a (init_after b o) = init_after (a ++ b) o.
Proof. destruct o; simpl; by rewrite app_assoc. Qed.

Lemma init_after_nil (o : init_outcome) : init_after [] o = o.
Proof. by destruct o. Qed.

Lemma init_events_after (evs : list init_event) (o : init_outcome) :
  init_events (init_after evs o) = evs ++ init_events o.
Proof. by destruct o. Qed.

Lemma count_events_app (p : init_event -> bool) (a b : list init_event) :
  count_events p (a ++ b) = (count_events p a + count_events p b)%nat.
Proof. unfold count_events. by rewrite filter_app, length_app. Qed.

Lemma count_spawn_wait (r : round) : count_events is_spawn (wait_events r) = 0%nat.
Proof. unfold wait_events. by repeat case_match. Qed.

Lemma count_sleep_wait (r : round) : count_events is_sleep (wait_events r) = 1%nat.
Proof. unfold wait_events. by repeat case_match. Qed.

Lemma count_spawn_workers :
  count_events is_spawn (replicate (Z.to_nat WorkerNum) IeSpawnWorker) = 10%nat.
Proof. reflexivity. Qed.

(** [tableStatus] gives a status or an error, never both. *)
Lemma tableStatus_cases (ans : described) :
  dynamoDB_tableStatus ans = NilDeref \/
  (exists e, snd ans = Some e /\ dynamoDB_tableStatus ans = Ret ("", Some e)) \/
  (exists status, snd ans = None /\ dynamoDB_tableStatus ans = Ret (status, None)).
Proof.
  destruct ans as [[[[[[status|]]|]]|] [e|]]; unfold dynamoDB_tableStatus; cbn; eauto.
Qed.

Lemma active_not_waits (r : round) : active r -> ~ waits r.
Proof.
  unfold active, waits. intros Ha [(status & Hs & Hnot)|(e & He & _)]; rewrite Ha in *.
  - simplify_eq. apply Hnot. by left.
  - done.
Qed.

(** What one round does to the loop. *)
Lemma NewDynamoDB_loop_round (r : round) (rest : list round) :
  (waits r /\
   NewDynamoDB_loop (r :: rest) = init_after (wait_events r) (NewDynamoDB_loop rest)) \/
  (active r /\ ~ waits r /\
   NewDynamoDB_loop (r :: rest) = Opened (replicate (Z.to_nat WorkerNum) IeSpawnWorker)) \/
  (~ waits r /\ ~ active r /\
   exists evs, count_events is_spawn evs = 0%nat /\
     (NewDynamoDB_loop (r :: rest) = InitPanicked evs \/
      exists err, NewDynamoDB_loop (r :: rest) = Refused err evs)).
Proof.
  unfold waits, active, wait_events. cbn [NewDynamoDB_loop].
  destruct (tableStatus_cases (round_described r)) as [Hp|[(e & _ & He)|(status & _ & Hs)]].
  - rewrite Hp. right. right. split; [by intros [(? & ? & _)|(? & ? & _)]|]. split; [done|].
    exists []. split; [done|]. by left.
  - rewrite He. destruct (strings_Contains e "ResourceNotFoundException") eqn:Hc; cbn [negb].
    + unfold dynamoDB_createTable. destruct (round_created r) as [e'|] eqn:Hcr.
      * right. right. split.
        { intros [(? & ? & _)|(? & ? & _ & ?)]; [done|]. by simplify_eq. }
        split; [done|]. exists [IeCreateTable]. split; [done|]. right. by eexists.
      * left. split; [right; by exists e | reflexivity].
    + right. right. split.
      { intros [(? & ? & _)|(e0 & ? & Hc0 & _)]; [done|]. simplify_eq. congruence. }
      split; [done|]. exists []. split; [done|]. right. by eexists.
  - rewrite Hs. destruct (decide (status = "ACTIVE")) as [->|Hna].
    + right. left. split; [done|]. split; [|by rewrite bool_decide_eq_true_2].
      intros [(s & Heq & Hnot)|(? & ? & _)]; [|done]. simplify_eq.
      apply Hnot. by left.
    + rewrite bool_decide_eq_false_2 by done.
      destruct (decide (status ∈ ["DELETING"; "ARCHIVING"; "ARCHIVED"])) as [Hin|Hnin].
      * rewrite bool_decide_eq_true_2 by done. right. right. split.
        { intros [(s & Heq & Hnot)|(? & ? & _)]; [|done]. simplify_eq.
          apply Hnot. by right. }
        split; [intros Heq; by simplify_eq|]. exists []. split; [done|]. right. by eexists.
      * rewrite bool_decide_eq_false_2 by done. left. split; [|done].
        left. exists status. split; [done|]. intros [?|?]%elem_of_cons; by simplify_eq.
Qed.

Lemma NewDynamoDB_loop_waits (pre rounds : list round) :
  Forall waits pre ->
  NewDynamoDB_loop (pre ++ rounds)
  = init_after (concat (wait_events <$> pre)) (NewDynamoDB_loop rounds).
Proof.
  induction 1 as [|r pre Hr Hpre IH]; cbn [app fmap list_fmap concat].
  - by rewrite init_after_nil.
  - destruct (NewDynamoDB_loop_round r (pre ++ rounds)) as [[_ ->]|[(_ & Hn & _)|(Hn & _)]];
      [|done|done].
    by rewrite IH, init_after_after.
Qed.

Lemma NewDynamoDB_loop_sound (rounds : list round) :
  match NewDynamoDB_loop rounds with
  | Opened evs =>
      exists pre r rest,
        rounds = pre ++ r :: rest /\ Forall waits pre /\ active r /\
        evs = concat (wait_events <$> pre) ++ replicate (Z.to_nat WorkerNum) IeSpawnWorker /\
        count_events is_spawn evs = 10%nat /\
        count_events is_sleep evs = length pre
  | o => count_events is_spawn (init_events o) = 0%nat
  end.
Proof.
  induction rounds as [|r rounds IH]; [done|].
  destruct (NewDynamoDB_loop_round r rounds)
    as [[Hw ->]|[(Ha & _ & ->)|(_ & _ & evs & Hevs & [->| [err ->]])]]; [| |done|done].
  - destruct (NewDynamoDB_loop rounds) as [evs|err evs|evs|evs]; cbn [init_after init_events] in *;
      try (rewrite count_events_app, count_spawn_wait; exact IH).
    destruct IH as (pre & r0 & rest & -> & Hpre & Hact & -> & Hsp & Hsl).
    exists (r :: pre), r0, rest. split; [done|]. split; [by constructor|]. split; [done|].
    cbn [fmap list_fmap concat]. rewrite <- app_assoc. split; [done|].
    rewrite !(count_events_app _ (wait_events r)), count_spawn_wait, count_sleep_wait, Hsp, Hsl.
    done.
  - exists [], r, rounds. by repeat split.
Qed.

Lemma NewDynamoDB_loop_complete (pre : list round) (r : round) (rest : list round) :
  Forall waits pre -> active r ->
  NewDynamoDB_loop (pre ++ r :: rest)
  = Opened (concat (wait_events <$> pre) ++ replicate (Z.to_nat WorkerNum) IeSpawnWorker).
Proof.
  intros Hpre Hact. rewrite (NewDynamoDB_loop_waits pre (r :: rest) Hpre).
  destruct (NewDynamoDB_loop_round r rest) as [[Hw _]|[(_ & _ & ->)|(_ & Hn & _)]]; [|done|done].
  by apply active_not_waits in Hw.
Qed.

(** X14: the loop of [NewDynamoDB] opens the database exactly when, after
    rounds in which it only waits, a round reports the table ACTIVE.  It
    then has slept once per waiting round, created the table in each round
    that reported it missing, and started the WorkerNum = 10 workers; on
    every other outcome no worker is started. *)
Theorem NewDynamoDB_opens_on_active (rounds : list round) :
  match NewDynamoDB_loop rounds with
  | Opened evs =>
      exists pre r rest,
        rounds = pre ++ r :: rest /\ Forall waits pre /\ active r /\
        evs = concat (wait_events <$> pre) ++ replicate (Z.to_nat WorkerNum) IeSpawnWorker /\
        count_events is_spawn evs = 10%nat /\
        count_events is_sleep evs = length pre
  | o => count_events is_spawn (init_events o) = 0%nat
  end /\
  (forall pre r rest,
     rounds = pre ++ r :: rest -> Forall waits pre -> active r ->
     NewDynamoDB_loop rounds
     = Opened (concat (wait_events <$> pre) ++ replicate (Z.to_nat WorkerNum) IeSpawnWorker)).
Proof.
  split; [apply NewDynamoDB_loop_sound|].
  intros pre r rest -> Hpre Hact. by apply NewDynamoDB_loop_complete.
Qed.

(** X15: after rounds in which it only waits, the loop of [NewDynamoDB] gives
    up without starting a worker when a round reports the table DELETING,
    ARCHIVING or ARCHIVED (the status is named in the error), when
    [DescribeTable] fails with an error other than
    ResourceNotFoundException (that error is returned), and when the table is
    missing and [CreateTable] fails (that error is returned). *)
Theorem NewDynamoDB_refuses (pre : list round) (r : round) (rest : list round) :
  Forall waits pre ->
  (forall status,
     dynamoDB_tableStatus (round_described r) = Ret (status, None) ->
     status ∈ ["DELETING"; "ARCHIVING"; "ARCHIVED"] ->
     NewDynamoDB_loop (pre ++ r :: rest)
     = Refused ("failed to get DynamoDB table, table status : " +:+ status)
               (concat (wait_events <$> pre))) /\
  (forall e,
     dynamoDB_tableStatus (round_described r) = Ret ("", Some e) ->
     strings_Contains e "ResourceNotFoundException" = false ->
     NewDynamoDB_loop (pre ++ r :: rest) = Refused e (concat (wait_events <$> pre))) /\
  (forall e e',
     dynamoDB_tableStatus (round_described r) = Ret ("", Some e) ->
     strings_Contains e "ResourceNotFoundException" = true ->
     round_created r = Some e' ->
     NewDynamoDB_loop (pre ++ r :: rest)
     = Refused e' (concat (wait_events <$> pre) ++ [IeCreateTable])).
Proof.
  intros Hpre. rewrite (NewDynamoDB_loop_waits pre (r :: rest) Hpre). cbn [NewDynamoDB_loop].
  split; [|split].
  - intros status -> Hin.
    assert (Hna : status ≠ "ACTIVE").
    { intros ->. repeat (apply elem_of_cons in Hin as [?|Hin]; [done|]). by apply elem_of_nil in Hin. }
    rewrite bool_decide_eq_false_2, bool_decide_eq_true_2 by done.
    cbn [init_after]. by rewrite app_nil_r.
  - intros e -> ->. cbn [negb init_after]. by rewrite app_nil_r.
  - intros e e' -> -> ->. done.
Qed.

Lemma NewDynamoDB_refuses_witness :
  NewDynamoDB_loop ([mkRound table_missing None; mkRound (table_in "CREATING") None]
                    ++ mkRound (table_in "DELETING") None :: [])
  = Refused "failed to get DynamoDB table, table status : DELETING"
            [IeCreateTable; IeSleep; IeSleep].
Proof.
  refine (proj1 (NewDynamoDB_refuses [mkRound table_missing None; mkRound (table_in "CREATING") None]
                   (mkRound (table_in "DELETING") None) [] _) "DELETING" _ _).
  - constructor; [right; by eexists|]. constructor; [|constructor].
    left. exists "CREATING". split; [done|].
    intros Hin. repeat (apply elem_of_cons in Hin as [?|Hin]; [done|]). by apply elem_of_nil in Hin.
  - reflexivity.
  - apply elem_of_cons. by left.
Defined.

(** X16: [NewDynamoDB] refuses a nil configuration before it calls anything;
    it opens the database only with a configuration and a session, after it
    has made sure that the bucket named after the table exists, and then has
    started the 10 workers; on every other outcome no worker is started. *)
Theorem NewDynamoDB_opens_with_bucket (config : option DynamoDBConfig) (session : option error)
    (a : S3Account) (rounds : list round) :
  match NewDynamoDB config session a rounds with
  | (a', Opened evs) =>
      exists cfg, config = Some cfg /\ session = None /\
        (TableName cfg +:+ "-bucket") ∈ acc_buckets a' /\
        count_events is_spawn evs = 10%nat
  | (a', o) => count_events is_spawn (init_events o) = 0%nat
  end /\
  NewDynamoDB None session a rounds = (a, Refused nilDynamoConfigErr []).
Proof.
  split; [|done]. unfold NewDynamoDB. destruct config as [cfg|]; [|done].
  destruct (newS3FileDB session a (Region cfg) "https://s3.ap-northeast-2.amazonaws.com"
                        (TableName cfg +:+ "-bucket")) as [a1 [db [err|]]] eqn:Hs3; [done|].
  pose proof (NewDynamoDB_loop_sound rounds) as Hloop.
  destruct (NewDynamoDB_loop rounds) as [evs|err evs|evs|evs]; try exact Hloop.
  destruct Hloop as (pre & r & rest & _ & _ & _ & _ & Hsp & _).
  exists cfg. split; [done|]. split.
  - unfold newS3FileDB in Hs3. by destruct session.
  - split; [|done]. by eapply newS3FileDB_bucket.
Qed.

(** ** What a batch sends, and what it counts *)

Lemma non_empty_pairs_cons (key val : Bytes) (kvs : list (Bytes * Bytes)) :
  non_empty_pairs ((key, val) :: kvs)
  = if len val =? 0 then non_empty_pairs kvs else (key, val) :: non_empty_pairs kvs.
Proof.
  unfold non_empty_pairs. rewrite filter_cons. cbn [snd].
  destruct (Z.eqb_spec (len val) 0) as [Hz|Hz].
  - by rewrite decide_False by (intros H; by apply H).
  - by rewrite decide_True.
Qed.

Lemma sizes_sum_app (a b : list (Bytes * Bytes)) : sizes_sum (a ++ b) = sizes_sum a + sizes_sum b.
Proof.
  induction a as [|kv a IH]; [done|].
  change (sizes_sum ((kv :: a) ++ b)) with (pair_size kv + sizes_sum (a ++ b)).
  change (sizes_sum (kv :: a)) with (pair_size kv + sizes_sum a). lia.
Qed.

(** A sequence of puts, followed through the pairs that are pending: the
    chunks sent and the pairs left pending are, in order, the pending pairs
    of before and the non-empty pairs put. *)
Lemma put_all_pending (kvs : list (Bytes * Bytes)) :
  forall batch pend,
    batch_inv batch ->
    batchItems batch = pair_request <$> pend -> size batch = sizes_sum pend ->
    exists batch' acts pend',
      put_all batch kvs = (batch', acts, None) /\
      batch_inv batch' /\
      batchItems batch' = pair_request <$> pend' /\ size batch' = sizes_sum pend' /\
      concat (sends_of acts) ++ (pair_request <$> pend')
        = pair_request <$> (pend ++ non_empty_pairs kvs) /\
      pend' `suffix_of` (pend ++ non_empty_pairs kvs).
Proof.
  induction kvs as [|[key val] kvs IH]; intros batch pend Hinv Hitems Hsize.
  - exists batch, [], pend. cbn [put_all sends_of omap concat app]. rewrite app_nil_r.
    do 5 (split; [done|]). by exists [].
  - cbn [put_all]. rewrite non_empty_pairs_cons.
    destruct (Z.eqb_spec (len val) 0) as [Hz|Hz].
    + rewrite Put_eq. destruct (Z.eqb_spec (len val) 0) as [_|]; [|done].
      destruct (IH batch pend Hinv Hitems Hsize)
        as (batch' & acts & pend' & -> & Hinv' & Hi & Hs & Hc & Hsuf).
      by exists batch', acts, pend'.
    + destruct (Put_step batch key val Hinv Hz) as (batch1 & acts1 & -> & Hinv1 & Hcase).
      destruct Hcase as [(Hfull & -> & ->)|(Hless & -> & ->)].
      * destruct (IH (mkBatch [] 0) [] Hinv1 eq_refl eq_refl)
          as (batch' & acts & pend' & -> & Hinv' & Hi & Hs & Hc & Hsuf).
        exists batch', ((put_spawned key val
                         ++ [WgAdd; Send (batchItems batch ++ [put_request key val])]) ++ acts),
               pend'.
        split; [done|]. split; [done|]. split; [done|]. split; [done|]. split.
        -- rewrite !sends_of_app, sends_of_spawned. cbn [app].
           change (sends_of [WgAdd; Send (batchItems batch ++ [put_request key val])])
             with [batchItems batch ++ [put_request key val]].
           cbn [app concat]. rewrite <- !app_assoc, Hc, Hitems. cbn [app].
           by rewrite fmap_app, fmap_cons.
        -- cbn [app] in Hsuf. apply suffix_app_r. by apply suffix_cons_r.
      * destruct (IH (mkBatch (batchItems batch ++ [put_request key val])
                              (size batch + len (stored_val key val)))
                     (pend ++ [(key, val)]) Hinv1)
          as (batch' & acts & pend' & -> & Hinv' & Hi & Hs & Hc & Hsuf).
        { cbn [batchItems]. by rewrite Hitems, fmap_app. }
        { cbn [size]. rewrite Hsize, sizes_sum_app. cbn. unfold pair_size. cbn. lia. }
        rewrite <- app_assoc in Hc, Hsuf. cbn [app] in Hc, Hsuf.
        exists batch', (put_spawned key val ++ acts), pend'.
        split; [done|]. split; [done|]. split; [done|]. split; [done|]. split; [|done].
        by rewrite sends_of_app, sends_of_spawned.
Qed.

(** X17: a fresh batch submits every item once and in order.  Over any
    sequence of puts and the [Write] after them, the requests sent, taken
    together as they are when sent, hold the rows of the pairs with a
    non-empty value, each once, in the order of the puts (an oversize value
    as its sentinel row). *)
Theorem batch_submits_each_item_once (kvs : list (Bytes * Bytes)) (fuel : nat) :
  exists batch acts acts',
    put_all dynamoDB_NewBatch kvs = (batch, acts, None) /\
    dynamoBatch_Write (S (S fuel)) batch = Some (batch, acts', None) /\
    concat (sends_of (acts ++ acts')) = pair_request <$> non_empty_pairs kvs.
Proof.
  destruct (put_all_pending kvs dynamoDB_NewBatch [] NewBatch_inv eq_refl eq_refl)
    as (batch & acts & pend & Hput & (Hlt & Hsz & Hiff) & Hitems & Hsize & Hc & _).
  cbn [app] in Hc. destruct (Z.eq_dec (size batch) 0) as [Hz|Hz].
  - exists batch, acts, []. split; [done|]. split; [by apply Write_size_zero|].
    rewrite app_nil_r, <- Hc, <- Hitems, (proj1 Hiff Hz). by rewrite app_nil_r.
  - exists batch, acts, [WgAdd; Send (batchItems batch); WgWait].
    split; [done|]. split.
    + apply Write_one_chunk; [done|]. unfold pending in *. split; [|lia].
      destruct (batchItems batch); [by destruct Hz; apply Hiff | simpl; lia].
    + rewrite sends_of_app, concat_app.
      change (sends_of [WgAdd; Send (batchItems batch); WgWait]) with [batchItems batch].
      cbn [concat]. by rewrite app_nil_r, Hitems.
Qed.

(** X18: [ValueSize] counts the pending items only.  After any sequence of
    puts on a fresh batch it is the sum, over the non-empty pairs put since
    the last chunk was sent, of the length of the value, or of the sentinel's
    13 bytes for an oversize value; the pending items are the rows of these
    pairs. *)
Theorem ValueSize_counts_pending (kvs : list (Bytes * Bytes)) :
  exists batch acts pend,
    put_all dynamoDB_NewBatch kvs = (batch, acts, None) /\
    pend `suffix_of` non_empty_pairs kvs /\
    Z.of_nat (length pend) = non_empty_count kvs mod dynamoBatchSize /\
    batchItems batch = pair_request <$> pend /\
    dynamoBatch_ValueSize batch = sizes_sum pend.
Proof.
  destruct (put_all_pending kvs dynamoDB_NewBatch [] NewBatch_inv eq_refl eq_refl)
    as (batch & acts & pend & Hput & _ & Hitems & Hsize & _ & Hsuf).
  destruct (put_all_spec kvs dynamoDB_NewBatch NewBatch_inv)
    as (batch0 & acts0 & Hput0 & _ & Hp & _).
  rewrite Hput in Hput0. simplify_eq.
  exists batch0, acts0, pend. split; [done|]. split; [done|]. split; [|done].
  change (pending dynamoDB_NewBatch) with 0 in Hp. rewrite Z.add_0_l in Hp.
  rewrite <- Hp. unfold pending. by rewrite Hitems, length_fmap.
Qed.

(** ** The upload goroutine over time *)

Lemma count_upload_cons (p : upload_event -> bool) (e : upload_event) (evs : list upload_event) :
  count_upload p (e :: evs) = ((if p e then 1 else 0) + count_upload p evs)%nat.
Proof. unfold count_upload. rewrite filter_cons. by destruct (p e). Qed.

Lemma upload_loop_done (faults : list (option error)) (w : World) (it : item) (failCnt : Z) :
  upload_loop faults w it failCnt None = (w, failCnt, [UeDone]).
Proof. by destruct faults. Qed.

Lemma upload_loop_stores (errs : list error) (rest : list (option error)) :
  forall w it failCnt e0,
    match upload_loop ((Some <$> errs) ++ None :: rest) w it failCnt (Some e0) with
    | (w', n, evs) =>
        n = failCnt + 1 + Z.of_nat (length errs) /\
        bucket w' = <[hexutil_Encode (content (item_key it)) := content (item_val it)]> (bucket w) /\
        table w' = table w /\
        last evs = Some UeDone /\ count_upload is_ue_done evs = 1%nat /\
        count_upload is_ue_sleep evs = S (length errs) /\
        count_upload is_ue_write evs = S (length errs)
    end.
Proof.
  induction errs as [|e errs IH]; intros w it failCnt e0; cbn [fmap list_fmap app upload_loop].
  - rewrite s3FileDB_write_ok by done. rewrite upload_loop_done. cbn. split; [lia|]. by repeat split.
  - rewrite (s3FileDB_write_fault _ it e) by done.
    specialize (IH (with_s3_put_fault w (Some e)) it (failCnt + 1)
                   ("failed to write item to S3. key: "
                      +:+ String.string_of_list_byte (content (item_key it))
                      +:+ ", err: " +:+ e)).
    destruct (upload_loop _ _ _ _ _) as [[w' n] evs].
    destruct IH as (-> & Hb & Ht & Hlast & Hd & Hs & Hw).
    split; [cbn [length]; lia|]. split; [done|]. split; [done|].
    split; [by destruct evs|]. rewrite !count_upload_cons, Hd, Hs, Hw. done.
Qed.

Lemma upload_loop_fails (errs : list error) :
  forall w it failCnt e0,
    match upload_loop (Some <$> errs) w it failCnt (Some e0) with
    | (w', n, evs) =>
        n = failCnt + 1 + Z.of_nat (length errs) /\ bucket w' = bucket w /\
        count_upload is_ue_done evs = 0%nat
    end.
Proof.
  induction errs as [|e errs IH]; intros w it failCnt e0; cbn [fmap list_fmap upload_loop].
  - cbn. split; [lia|]. by split.
  - rewrite (s3FileDB_write_fault _ it e) by done.
    specialize (IH (with_s3_put_fault w (Some e)) it (failCnt + 1)
                   ("failed to write item to S3. key: "
                      +:+ String.string_of_list_byte (content (item_key it))
                      +:+ ", err: " +:+ e)).
    destruct (upload_loop _ _ _ _ _) as [[w' n] evs].
    destruct IH as (-> & Hb & Hd). split; [cbn [length]; lia|]. by split.
Qed.

(** X19: the goroutine that uploads an oversize value writes the blob again,
    a second apart, until a write succeeds.  When the bucket fails n times
    and then answers, it has written n+1 times and slept n times, the blob
    is stored, the table is untouched, and the completion group is signalled
    once, as its last step; as long as every write fails it does not signal
    the group. *)
Theorem upload_retries_until_stored (errs : list error) (rest : list (option error))
    (w : World) (it : item) :
  match upload_goroutine ((Some <$> errs) ++ None :: rest) w it with
  | (w', failCnt, evs) =>
      failCnt = Z.of_nat (length errs) /\
      bucket w' = <[hexutil_Encode (content (item_key it)) := content (item_val it)]> (bucket w) /\
      table w' = table w /\
      last evs = Some UeDone /\ count_upload is_ue_done evs = 1%nat /\
      count_upload is_ue_sleep evs = length errs /\
      count_upload is_ue_write evs = S (length errs)
  end /\
  match upload_goroutine (Some <$> errs) w it with
  | (w', failCnt, evs) =>
      failCnt = Z.of_nat (length errs) /\ bucket w' = bucket w /\
      count_upload is_ue_done evs = 0%nat
  end.
Proof.
  split.
  - destruct errs as [|e errs]; cbn [fmap list_fmap app upload_goroutine].
    + rewrite s3FileDB_write_ok by done. rewrite upload_loop_done. cbn. by repeat split.
    + rewrite (s3FileDB_write_fault _ it e) by done.
      pose proof (upload_loop_stores errs rest (with_s3_put_fault w (Some e)) it 0
                    ("failed to write item to S3. key: "
                       +:+ String.string_of_list_byte (content (item_key it))
                       +:+ ", err: " +:+ e)) as H.
      destruct (upload_loop _ _ _ _ _) as [[w' n] evs].
      destruct H as (-> & Hb & Ht & Hlast & Hd & Hs & Hw).
      split; [cbn [length]; lia|]. split; [done|]. split; [done|].
      split; [by destruct evs|]. rewrite !count_upload_cons, Hd, Hs, Hw. done.
  - destruct errs as [|e errs]; cbn [fmap list_fmap upload_goroutine]; [done|].
    rewrite (s3FileDB_write_fault _ it e) by done.
    pose proof (upload_loop_fails errs (with_s3_put_fault w (Some e)) it 0
                  ("failed to write item to S3. key: "
                     +:+ String.string_of_list_byte (content (item_key it))
                     +:+ ", err: " +:+ e)) as H.
    destruct (upload_loop _ _ _ _ _) as [[w' n] evs].
    destruct H as (-> & Hb & Hd). split; [cbn [length]; lia|]. by split.
Qed.

(** ** The worker over its requests *)

Lemma only_table_empty (tableName : string) : only_table tableName ∅.
Proof. intros t _. apply lookup_empty. Qed.

Lemma only_table_insert (tableName : string) (m : RequestMap) (items : list WriteRequest) :
  only_table tableName m -> only_table tableName (<[tableName := items]> m).
Proof. intros Hm t Hne. rewrite lookup_insert_ne by done. by apply Hm. Qed.

Lemma only_table_single (tableName : string) (m : RequestMap) (items : list WriteRequest) :
  only_table tableName m -> <[tableName := items]> m = <[tableName := items]> ∅.
Proof.
  intros Hm. apply map_eq. intros t. destruct (decide (t = tableName)) as [->|Hne].
  - by rewrite !lookup_insert_eq.
  - rewrite !lookup_insert_ne by done. rewrite lookup_empty. by apply Hm.
Qed.

Lemma only_table_resubmission (tableName : string) (req : RequestMap) (resp : response) :
  only_table tableName req -> only_table tableName (resubmission tableName req resp).
Proof.
  intros Hreq. unfold resubmission. destruct resp as [[out|] err]; [|done].
  case_bool_decide; [done|]. by apply only_table_insert.
Qed.

Lemma chained_only_table (tableName : string) (cs : list (RequestMap * response)) :
  chained tableName cs ->
  (forall c, head cs = Some c -> only_table tableName c.1) ->
  Forall (fun c => only_table tableName c.1) cs.
Proof.
  induction cs as [|c0 cs IH]; intros Hch Hhead; [constructor|].
  assert (H0 : only_table tableName c0.1) by (by apply Hhead).
  constructor; [done|]. destruct cs as [|c1 cs]; [constructor|].
  destruct Hch as [H01 Hch]. apply IH; [done|].
  intros c Hc. cbn in Hc. simplify_eq. rewrite H01. by apply only_table_resubmission.
Qed.

(** A worker sends requests for its own table only, and serves a request
    the same whatever an earlier request left in [RequestItems]. *)
Lemma worker_handle_only_table (answers : list response) (tableName : string) (failCount : Z)
    (m : RequestMap) (items : list WriteRequest) :
  only_table tableName m ->
  Forall (fun c => only_table tableName c.1)
         (calls_of (trace_of (worker_handle answers tableName failCount m items))) /\
  worker_handle answers tableName failCount m items
  = worker_handle answers tableName failCount ∅ items.
Proof.
  intros Hm. split.
  - rewrite worker_handle_eq. destruct answers as [|[[out|] err] answers]; [constructor| |].
    + destruct (called_well_run tableName answers failCount (<[tableName := items]> m) out err)
        as [(Hch & _) Hhead].
      apply chained_only_table; [done|]. intros c Hc. rewrite Hhead in Hc. simplify_eq.
      by apply only_table_insert.
    + cbn. constructor; [|constructor]. by apply only_table_insert.
  - rewrite !worker_handle_eq. by rewrite (only_table_single tableName m items Hm).
Qed.

Lemma RequestItems_after_only_table (tableName : string) (m : RequestMap) (tr : list wevent) :
  only_table tableName m -> Forall (fun c => only_table tableName c.1) (calls_of tr) ->
  only_table tableName (RequestItems_after m tr).
Proof.
  intros Hm Hall. unfold RequestItems_after.
  destruct (last (calls_of tr)) as [c|] eqn:Hlast; [|done]. cbn.
  apply last_Some_elem_of in Hlast. by apply (proj1 (Forall_forall _ _) Hall).
Qed.

(** A request that completes leaves the failure counter at zero and has
    signalled the group once. *)
Lemma worker_handle_completed (answers : list response) (tableName : string) (failCount : Z)
    (m : RequestMap) (items : list WriteRequest) (fc : Z) (tr : list wevent) :
  worker_handle answers tableName failCount m items = Completed fc tr ->
  fc = 0 /\ dones_of tr = 1%nat.
Proof.
  rewrite worker_handle_eq. destruct answers as [|[[out|] err] answers]; [done| |done].
  destruct (called_well_run tableName answers failCount (<[tableName := items]> m) out err)
    as [(_ & _ & Ho) _].
  intros Heq. rewrite Heq in Ho. destruct Ho as (-> & tr' & req & resp & -> & _ & Hd & _).
  split; [done|]. rewrite dones_of_app, Hd. reflexivity.
Qed.

Lemma worker_handle_completes (s : selected) (tableName : string) (failCount : Z)
    (m : RequestMap) :
  completes s ->
  match s with
  | SelQuit => False
  | SelWrite items answers => is_Completed (worker_handle answers tableName failCount m items)
  end.
Proof.
  destruct s as [|items answers]; [done|]. intros (pre & good & rest & -> & Hpre & Hgood).
  rewrite worker_handle_eq. destruct pre as [|[[out|] err] pre]; cbn [app].
  - destruct Hgood as (out & -> & Hsz). rewrite called_eq.
    rewrite (proj2 (full_success_dec out None)); [done|]. by exists out.
  - inversion Hpre; subst. by apply called_completes.
  - inversion Hpre as [|? ? [? Hsome] ?]. discriminate.
Qed.

Lemma worker_select_serves (tableName : string) (reqs : list selected) :
  forall (sel : list selected) (m : RequestMap),
    Forall completes reqs -> only_table tableName m ->
    exists m',
      only_table tableName m' /\
      worker_select (reqs ++ sel) tableName 0 m
      = (concat (served_alone tableName <$> reqs) ++ (worker_select sel tableName 0 m').1,
         (worker_select sel tableName 0 m').2).
Proof.
  induction reqs as [|s reqs IH]; intros sel m Hall Hm.
  - exists m. split; [done|]. cbn. by destruct (worker_select sel tableName 0 m).
  - inversion Hall as [|? ? Hs Hreqs]; subst.
    pose proof (worker_handle_completes s tableName 0 m Hs) as Hc.
    destruct s as [|items answers]; [done|]. cbn [app worker_select].
    destruct (worker_handle_only_table answers tableName 0 m items Hm) as [Honly Heq].
    destruct (worker_handle answers tableName 0 m items) as [fc tr| |] eqn:Hh; [|done|done].
    destruct (worker_handle_completed _ _ _ _ _ _ _ Hh) as [-> _].
    destruct (IH sel (RequestItems_after (<[tableName := items]> m) tr) Hreqs) as (m' & Hm' & ->).
    { apply RequestItems_after_only_table; [by apply only_table_insert | done]. }
    exists m'. split; [done|]. cbn [fmap list_fmap concat served_alone].
    rewrite <- Heq. cbn [trace_of]. by rewrite app_assoc.
Qed.

Lemma dones_of_served (tableName : string) (reqs : list selected) :
  Forall completes reqs ->
  dones_of (concat (served_alone tableName <$> reqs)) = length reqs.
Proof.
  induction 1 as [|s reqs Hs Hreqs IH]; [done|].
  cbn [fmap list_fmap concat length]. rewrite dones_of_app, IH.
  pose proof (worker_handle_completes s tableName 0 ∅ Hs) as Hc.
  destruct s as [|items answers]; [done|]. cbn [served_alone].
  destruct (worker_handle answers tableName 0 ∅ items) as [fc tr| |] eqn:Hh; [|done|done].
  cbn [trace_of]. by destruct (worker_handle_completed _ _ _ _ _ _ _ Hh) as [_ ->].
Qed.

(** X20: a worker serves the requests it picks one after the other until
    it picks the quit signal.  When each request comes to full success, the
    worker does for each one exactly what a fresh worker would do, with
    the failure counter at zero and nothing left over from the request
    before; it signals the group once per request, sends requests for its
    own table only, and on the quit signal returns without looking at what
    is still queued. *)
Theorem worker_serves_until_quit (reqs later : list selected) (tableName : string) :
  Forall completes reqs ->
  dynamoDB_createBatchWriteWorker (reqs ++ SelQuit :: later) tableName
    = (concat (served_alone tableName <$> reqs), Exited) /\
  dones_of (concat (served_alone tableName <$> reqs)) = length reqs /\
  Forall (fun c => only_table tableName c.1) (calls_of (concat (served_alone tableName <$> reqs))).
Proof.
  intros Hall. split; [|split].
  - unfold dynamoDB_createBatchWriteWorker.
    destruct (worker_select_serves tableName reqs (SelQuit :: later) ∅ Hall
                (only_table_empty tableName)) as (m' & _ & ->).
    cbn. by rewrite app_nil_r.
  - by apply dones_of_served.
  - clear Hall. induction reqs as [|s reqs IH]; [constructor|].
    cbn [fmap list_fmap concat]. rewrite calls_of_app. apply Forall_app. split; [|done].
    destruct s as [|items answers]; [constructor|]. cbn [served_alone].
    apply worker_handle_only_table, only_table_empty.
Qed.

Lemma worker_serves_until_quit_witness :
  dynamoDB_createBatchWriteWorker
    ([SelWrite [numbered_request 0] [(Some (mkBatchWriteItemOutput ∅), None)]]
       ++ SelQuit :: [SelWrite [numbered_request 1] []]) "table"
    = (concat (served_alone "table"
                 <$> [SelWrite [numbered_request 0] [(Some (mkBatchWriteItemOutput ∅), None)]]),
       Exited) /\
  dones_of (concat (served_alone "table"
              <$> [SelWrite [numbered_request 0] [(Some (mkBatchWriteItemOutput ∅), None)]]))
    = length [SelWrite [numbered_request 0] [(Some (mkBatchWriteItemOutput ∅), None)]] /\
  Forall (fun c => only_table "table" c.1)
         (calls_of (concat (served_alone "table"
            <$> [SelWrite [numbered_request 0] [(Some (mkBatchWriteItemOutput ∅), None)]]))).
Proof.
  apply (worker_serves_until_quit
           [SelWrite [numbered_request 0] [(Some (mkBatchWriteItemOutput ∅), None)]]
           [SelWrite [numbered_request 1] []] "table").
  constructor; [|constructor].
  exists [], (Some (mkBatchWriteItemOutput ∅), None), [].
  split; [done|]. split; [constructor|]. by eexists.
Defined.

(** ** The backing array of the batch *)

Lemma slice_elems_length (st : store) (s : slice) :
  slice_wf st s -> length (slice_elems st s) = sl_len s.
Proof.
  intros (Hle & Harr & _). unfold slice_elems. rewrite length_take.
  destruct Harr as [Hz|(arr & -> & Hlen & _)]; cbn; lia.
Qed.

(** [append] adds the element at the end of what the slice shows, and
    leaves a slice within an allocated array. *)
Lemma go_append_shows (grow : nat -> nat) (st : store) (s : slice) (x : WriteRequest) :
  grows grow -> slice_wf st s ->
  slice_wf (go_append grow st s x).1 (go_append grow st s x).2 /\
  slice_elems (go_append grow st s x).1 (go_append grow st s x).2
    = slice_elems st s ++ [Some x] /\
  sl_len (go_append grow st s x).2 = S (sl_len s).
Proof.
  intros Hgrow Hwf. pose proof (slice_elems_length st s Hwf) as Hlen.
  destruct Hwf as (Hle & Harr & Hfresh). unfold go_append.
  destruct (Nat.ltb_spec (sl_len s) (sl_cap s)) as [Hlt|Hge]; cbn [fst snd].
  - destruct Harr as [Hz|(arr & Ha & Hal & Hnext)]; [lia|].
    split; [|split; [|done]].
    + split; [cbn; lia|]. split.
      * right. exists (<[sl_len s := Some x]> arr). cbn.
        rewrite lookup_alter_eq, Ha. cbn. by rewrite length_insert.
      * intros a Hge. cbn. rewrite lookup_alter_ne; [by apply Hfresh|].
        cbn in Hge. lia.
    + unfold slice_elems. cbn. rewrite lookup_alter_eq, Ha. cbn.
      rewrite (take_S_r _ _ (Some x)) by (apply list_lookup_insert_eq; lia).
      by rewrite take_insert_ge by lia.
  - assert (Hcap : (sl_cap s < grow (sl_cap s))%nat) by apply Hgrow.
    split; [|split; [|done]].
    + split; [cbn; lia|]. split.
      * right. eexists. cbn. rewrite lookup_insert_eq. split; [done|].
        split; [|lia]. rewrite length_app, Hlen. cbn [app length].
        rewrite length_replicate. lia.
      * intros a Ha. cbn in *. rewrite lookup_insert_ne by lia. apply Hfresh. lia.
    + unfold slice_elems at 1. cbn [arrays sl_array sl_len]. rewrite lookup_insert_eq.
      cbn [default]. replace (S (sl_len s)) with (sl_len s + 1)%nat by lia.
      cbv [id]. rewrite (take_app_add' _ _ (sl_len s) 1) by done. done.
Qed.

Lemma shared_Put_eq (grow : nat -> nat) (batch : shared_batch) (key val : Bytes) :
  shared_Put grow batch key val
  = if len val =? 0 then (batch, [], None)
    else
      let r := go_append grow (sb_store batch) (sb_batchItems batch) (put_request key val) in
      let batch1 := mkSharedBatch r.1 r.2 (sb_size batch + len (stored_val key val)) in
      let spawned :=
        if len key + len val >? dynamoWriteSizeLimit
        then [ShWgAdd; ShGoUpload (mkItem key val)] else [] in
      if Z.of_nat (sl_len r.2) =? dynamoBatchSize
      then (shared_Reset batch1, spawned ++ [ShWgAdd; ShSend r.2], None)
      else (batch1, spawned, None).
Proof.
  unfold shared_Put, put_request, stored_val.
  destruct (len val =? 0); [done|].
  destruct (len key + len val >? dynamoWriteSizeLimit); rewrite MarshalMap_ok;
    by destruct (go_append _ _ _ _).
Qed.

Lemma shows_len (sb : shared_batch) (batch : dynamoBatch) :
  shows sb batch -> sl_len (sb_batchItems sb) = length (batchItems batch).
Proof.
  intros (Hwf & Helems & _). rewrite <- (slice_elems_length _ _ Hwf), Helems.
  by rewrite length_fmap.
Qed.

Lemma slice_to_0_shows (st : store) (s : slice) :
  slice_wf st s -> slice_wf st (slice_to_0 s) /\ slice_elems st (slice_to_0 s) = [].
Proof.
  intros (Hle & Harr & Hfresh). split; [|done]. split; [cbn; lia|]. by split.
Qed.

(** One [Put], on arrays and on lists. *)
Lemma shared_Put_refines (grow : nat -> nat) (sb : shared_batch) (batch : dynamoBatch)
    (key val : Bytes) :
  grows grow -> shows sb batch ->
  (shared_Put grow sb key val).2 = (dynamoBatch_Put batch key val).2 /\
  shows (shared_Put grow sb key val).1.1 (dynamoBatch_Put batch key val).1.1 /\
  Forall2 (action_shows (sb_store (shared_Put grow sb key val).1.1))
          (shared_Put grow sb key val).1.2 (dynamoBatch_Put batch key val).1.2.
Proof.
  intros Hgrow Hshows. pose proof (shows_len sb batch Hshows) as Hlen.
  destruct Hshows as (Hwf & Helems & Hsize).
  rewrite shared_Put_eq, Put_eq. destruct (len val =? 0).
  { cbn [fst snd]. split; [done|]. split; [done|]. constructor. }
  cbn zeta.
  destruct (go_append_shows grow (sb_store sb) (sb_batchItems sb) (put_request key val)
              Hgrow Hwf) as (Hwf1 & Helems1 & Hlen1).
  cbn [batchItems]. rewrite Hlen1, Hlen, length_app. cbn [length].
  replace (length (batchItems batch) + 1)%nat with (S (length (batchItems batch))) by lia.
  assert (Hsp : Forall2 (action_shows (go_append grow (sb_store sb) (sb_batchItems sb)
                                         (put_request key val)).1)
                  (if len key + len val >? dynamoWriteSizeLimit
                   then [ShWgAdd; ShGoUpload (mkItem key val)] else [])
                  (put_spawned key val)).
  { unfold put_spawned. destruct (len key + len val >? dynamoWriteSizeLimit);
      repeat constructor. }
  destruct (Z.of_nat (S (length (batchItems batch))) =? dynamoBatchSize); cbn [fst snd].
  - split; [done|]. split.
    + unfold shows, shared_Reset, dynamoBatch_Reset. cbn [sb_store sb_batchItems sb_size batchItems size].
      destruct (slice_to_0_shows _ _ Hwf1) as [Hwf0 Hel0]. rewrite Hel0, take_0.
      split; [done|]. by split.
    + cbn [shared_Reset sb_store]. apply Forall2_app; [done|].
      constructor; [done|]. constructor; [|constructor]. cbn.
      by rewrite Helems1, Helems, fmap_app.
  - split; [done|]. split; [|done].
    unfold shows. cbn [sb_store sb_batchItems sb_size batchItems size].
    split; [done|]. split; [|by rewrite Hsize]. by rewrite Helems1, Helems, fmap_app.
Qed.

Lemma Put_no_error (batch : dynamoBatch) (key val : Bytes) :
  (dynamoBatch_Put batch key val).2 = None.
Proof. rewrite Put_eq. cbn zeta. by repeat case_match. Qed.

Lemma NewBatch_shows : shows shared_NewBatch dynamoDB_NewBatch.
Proof.
  split; [|done]. split; [done|]. split; [by left|]. intros a _. apply lookup_empty.
Qed.

Lemma shared_put_all_shows (grow : nat -> nat) (kvs : list (Bytes * Bytes)) :
  grows grow ->
  forall sb batch, shows sb batch -> shows (shared_put_all grow sb kvs) (put_all batch kvs).1.1.
Proof.
  intros Hgrow. induction kvs as [|[key val] kvs IH]; intros sb batch Hshows; [done|].
  cbn [shared_put_all put_all].
  destruct (shared_Put_refines grow sb batch key val Hgrow Hshows) as (Herr & Hsh & _).
  rewrite Put_no_error in Herr.
  destruct (shared_Put grow sb key val) as [[sb1 sacts] serr].
  destruct (dynamoBatch_Put batch key val) as [[batch1 acts] err] eqn:Hput.
  pose proof (Put_no_error batch key val) as Hnone. rewrite Hput in Hnone.
  cbn [fst snd] in *. subst. specialize (IH sb1 batch1 Hsh).
  by destruct (put_all batch1 kvs) as [[batch2 acts2] err2].
Qed.

Lemma grows_doubling : grows doubling.
Proof. intros c. unfold doubling. destruct (Nat.eqb_spec c 0); lia. Qed.

(** X21: following the backing arrays changes nothing in what a [Put]
    returns.  On every batch reached from [NewBatch] by puts, a [Put] gives
    the same error, leaves the slice showing the pending items, and takes the
    same actions as on lists, the slice of a send showing, when [Put]
    returns, exactly the items of the chunk. *)
Theorem Put_on_arrays_refines_Put (grow : nat -> nat) (kvs : list (Bytes * Bytes))
    (key val : Bytes) :
  grows grow ->
  let sb := shared_put_all grow shared_NewBatch kvs in
  let batch := (put_all dynamoDB_NewBatch kvs).1.1 in
  shows sb batch /\
  (shared_Put grow sb key val).2 = (dynamoBatch_Put batch key val).2 /\
  shows (shared_Put grow sb key val).1.1 (dynamoBatch_Put batch key val).1.1 /\
  Forall2 (action_shows (sb_store (shared_Put grow sb key val).1.1))
          (shared_Put grow sb key val).1.2 (dynamoBatch_Put batch key val).1.2.
Proof.
  intros Hgrow sb batch.
  assert (Hshows : shows sb batch) by (by apply shared_put_all_shows, NewBatch_shows).
  split; [done|]. by apply shared_Put_refines.
Qed.

Lemma Put_on_arrays_refines_Put_witness :
  let sb := shared_put_all doubling shared_NewBatch (numbered_puts 24) in
  let batch := (put_all dynamoDB_NewBatch (numbered_puts 24)).1.1 in
  shows sb batch /\
  (shared_Put doubling sb (numbered_key 24) (bytes_of "v")).2
    = (dynamoBatch_Put batch (numbered_key 24) (bytes_of "v")).2 /\
  shows (shared_Put doubling sb (numbered_key 24) (bytes_of "v")).1.1
        (dynamoBatch_Put batch (numbered_key 24) (bytes_of "v")).1.1 /\
  Forall2 (action_shows (sb_store (shared_Put doubling sb (numbered_key 24) (bytes_of "v")).1.1))
          (shared_Put doubling sb (numbered_key 24) (bytes_of "v")).1.2
          (dynamoBatch_Put batch (numbered_key 24) (bytes_of "v")).1.2.
Proof.
  apply (Put_on_arrays_refines_Put doubling (numbered_puts 24) (numbered_key 24) (bytes_of "v")).
  apply grows_doubling.
Defined.

(** X22: a chunk that has been sent is overwritten by the next [Put].  The
    25th pending item makes [Put] send the slice and reset [batchItems] to
    its first zero elements, on the same array; the following [Put] of a
    non-empty value appends into that array, so the slice that was sent then
    shows the new row in the place of the first row of the chunk. *)
Theorem sent_chunk_is_overwritten (grow : nat -> nat) (kvs : list (Bytes * Bytes))
    (key val key' val' : Bytes) :
  grows grow ->
  non_empty_count kvs mod dynamoBatchSize = dynamoBatchSize - 1 ->
  len val ≠ 0 -> len val' ≠ 0 ->
  let sb := shared_put_all grow shared_NewBatch kvs in
  let chunk := batchItems (put_all dynamoDB_NewBatch kvs).1.1 ++ [put_request key val] in
  exists sent spawned sb1 sb2 acts2,
    length chunk = 25%nat /\
    shared_Put grow sb key val = (sb1, spawned ++ [ShWgAdd; ShSend sent], None) /\
    slice_elems (sb_store sb1) sent = Some <$> chunk /\
    shared_Put grow sb1 key' val' = (sb2, acts2, None) /\
    slice_elems (sb_store sb2) sent = Some (put_request key' val') :: (Some <$> tail chunk).
Proof.
  intros Hgrow Hmod Hv Hv' sb chunk.
  assert (Hshows : shows sb (put_all dynamoDB_NewBatch kvs).1.1)
    by (by apply shared_put_all_shows, NewBatch_shows).
  destruct (put_all_spec kvs dynamoDB_NewBatch NewBatch_inv)
    as (batch & acts & Hput & _ & Hp & _).
  change (pending dynamoDB_NewBatch) with 0 in Hp. rewrite Z.add_0_l, Hmod in Hp.
  subst chunk. rewrite Hput in *. cbn [fst] in *.
  unfold pending, dynamoBatchSize in Hp.
  assert (Hn : length (batchItems batch) = 24%nat) by lia.
  pose proof (shows_len sb batch Hshows) as Hlen.
  destruct Hshows as (Hwf & Helems & Hsize).
  destruct (go_append_shows grow (sb_store sb) (sb_batchItems sb) (put_request key val)
              Hgrow Hwf) as (Hwf1 & Helems1 & Hlen1).
  set (r := go_append grow (sb_store sb) (sb_batchItems sb) (put_request key val)) in *.
  assert (Hchunk : slice_elems r.1 r.2 = Some <$> (batchItems batch ++ [put_request key val])).
  { by rewrite Helems1, Helems, fmap_app. }
  (* the put that fills the chunk *)
  assert (Hput1 : shared_Put grow sb key val
                  = (shared_Reset (mkSharedBatch r.1 r.2 (sb_size sb + len (stored_val key val))),
                     (if len key + len val >? dynamoWriteSizeLimit
                      then [ShWgAdd; ShGoUpload (mkItem key val)] else [])
                       ++ [ShWgAdd; ShSend r.2], None)).
  { rewrite shared_Put_eq. destruct (Z.eqb_spec (len val) 0) as [|_]; [done|].
    cbn zeta. fold r. rewrite Hlen1, Hlen, Hn. reflexivity. }
  (* the put after it *)
  destruct Hwf1 as (Hle1 & Harr1 & Hfresh1).
  destruct Harr1 as [Hz|(arr & Harr & Hal & Hnext)]; [lia|].
  assert (Hcap : (0 < sl_cap r.2)%nat) by lia.
  set (st2 := mkStore (alter (fun a => <[0%nat := Some (put_request key' val')]> a)
                             (sl_array r.2) (arrays r.1)) (next_array r.1)).
  assert (Happ : go_append grow r.1 (slice_to_0 r.2) (put_request key' val')
                 = (st2, mkSlice (sl_array r.2) 1 (sl_cap r.2))).
  { unfold go_append. cbn [slice_to_0 sl_len sl_cap sl_array].
    destruct (Nat.ltb_spec 0 (sl_cap r.2)); [done|lia]. }
  eexists r.2, _, _, _, _. split; [rewrite length_app, Hn; reflexivity|].
  split; [exact Hput1|]. split; [exact Hchunk|]. split.
  - rewrite shared_Put_eq. destruct (Z.eqb_spec (len val') 0) as [|_]; [lia|].
    cbn zeta. cbn [shared_Reset sb_store sb_batchItems sb_size]. rewrite Happ.
    cbn [fst snd sl_len]. reflexivity.
  - cbn [fst sb_store]. unfold slice_elems. cbn [arrays st2].
    rewrite lookup_alter_eq, Harr. cbn [fmap option_fmap option_map default from_option].
    cbv [id]. rewrite take_insert_lt by lia.
    unfold slice_elems in Hchunk. rewrite Harr in Hchunk. cbn in Hchunk. rewrite Hchunk.
    destruct (batchItems batch) as [|x0 items]; [done|]. reflexivity.
Qed.

Lemma sent_chunk_is_overwritten_witness :
  let sb := shared_put_all doubling shared_NewBatch (numbered_puts 24) in
  let chunk := batchItems (put_all dynamoDB_NewBatch (numbered_puts 24)).1.1
                 ++ [put_request (numbered_key 24) (bytes_of "v")] in
  exists sent spawned sb1 sb2 acts2,
    length chunk = 25%nat /\
    shared_Put doubling sb (numbered_key 24) (bytes_of "v")
      = (sb1, spawned ++ [ShWgAdd; ShSend sent], None) /\
    slice_elems (sb_store sb1) sent = Some <$> chunk /\
    shared_Put doubling sb1 (numbered_key 25) (bytes_of "v") = (sb2, acts2, None) /\
    slice_elems (sb_store sb2) sent
      = Some (put_request (numbered_key 25) (bytes_of "v")) :: (Some <$> tail chunk).
Proof.
  apply (sent_chunk_is_overwritten doubling (numbered_puts 24) (numbered_key 24) (bytes_of "v")
           (numbered_key 25) (bytes_of "v"));
    [apply grows_doubling | by vm_compute | vm_compute; discriminate | vm_compute; discriminate].
Defined.
